(** * notion-docs-sync: the Markdown-to-Notion block renderer

    A shallow embedding of [src/notion_docs_sync/markdown.py], the
    [NotionRenderer] class that turns a mistletoe syntax tree into block
    descriptors for notion-py, and the properties of it that the
    specification states.

    Conventions of the embedding.
    - A Python [str] is a [string]; its characters are code points below
      256, so the only characters that match an ASCII letter with the case
      ignored are the two cases of that letter, and the only decimal digits
      are ['0'] to ['9'].
    - A Python [dict] is an association list in insertion order, a Python
      [list] a [list]; the classes of [notion.block] are constants.
    - A call either returns or raises; the records sent to [logger.info] are
      collected next to the outcome, in the order of the calls.
    - [flatten] tests [collections.Iterable], which Python has up to 3.9. *)

From Stdlib Require Import String Ascii List ZArith Lia Bool DecimalString.
Import ListNotations.
Local Open Scope string_scope.
Local Open Scope list_scope.
Local Open Scope Z_scope.

Set Implicit Arguments.
Set Warnings "-register-all".

(** ** Outcomes: exceptions and log records *)

Inductive exn : Type :=
| KeyError (key : string)
| TypeError
| IndexError
| AttributeError (name : string).

Inductive result (A : Type) : Type :=
| Ok (a : A)
| Raise (e : exn).

Arguments Ok {A} a.
Arguments Raise {A} e.

(** The outcome of a call and the records it logged. *)
Definition M (A : Type) : Type := (result A * list string)%type.

Definition ret {A : Type} (a : A) : M A := (Ok a, []).

Definition raise {A : Type} (e : exn) : M A := (Raise e, []).

Definition bind {A B : Type} (m : M A) (f : A -> M B) : M B :=
  match m with
  | (Ok a, l1) => let (r, l2) := f a in (r, l1 ++ l2)
  | (Raise e, l1) => (Raise e, l1)
  end.

(** [logger.info(msg)] *)
Definition logger_info (msg : string) : M unit := (Ok tt, [msg]).

Declare Scope py_scope.
Delimit Scope py_scope with py.
Notation "x <- m ;; k" := (bind m (fun x => k))
  (at level 61, m at next level, right associativity) : py_scope.
Notation "m ;;; k" := (bind m (fun _ => k))
  (at level 61, right associativity) : py_scope.
Local Open Scope py_scope.

Definition outcome {A : Type} (m : M A) : result A := fst m.

(** A comprehension or a generator whose element expression can raise. *)
Definition mapM {A B : Type} (f : A -> M B) : list A -> M (list B) :=
  fix go (l : list A) : M (list B) :=
    match l with
    | [] => ret []
    | x :: xs => y <- f x ;; ys <- go xs ;; ret (y :: ys)
    end.

(** [[elem(x) for x in l if cond(x)]]: for each element in turn the
    condition is evaluated, then the element expression when it holds. *)
Definition comprehension {A B : Type} (cond : A -> M bool) (elem : A -> M B)
  : list A -> M (list B) :=
  fix go (l : list A) : M (list B) :=
    match l with
    | [] => ret []
    | x :: xs =>
        b <- cond x ;;
        if b then y <- elem x ;; ys <- go xs ;; ret (y :: ys) else go xs
    end.

(** ** Rendered values *)

(** The classes imported from [notion.block]. *)
Inductive notion_class : Type :=
| CodeBlock | DividerBlock | HeaderBlock | SubheaderBlock | SubsubheaderBlock
| QuoteBlock | TextBlock | NumberedListBlock | BulletedListBlock | ImageBlock
| CollectionViewBlock.

Inductive value : Type :=
| VStr (s : string)
| VClass (c : notion_class)
| VList (l : list value)
| VDict (d : list (string * value)).

Definition isinstance_str (v : value) : bool :=
  match v with VStr _ => true | _ => false end.

Definition isinstance_dict (v : value) : bool :=
  match v with VDict _ => true | _ => false end.

(** [v == TextBlock] *)
Definition is_TextBlock (v : value) : bool :=
  match v with VClass TextBlock => true | _ => false end.

Fixpoint lookup (d : list (string * value)) (k : string) : option value :=
  match d with
  | [] => None
  | (k', v) :: d' => if String.eqb k' k then Some v else lookup d' k
  end.

(** [d[k]] on a dict. *)
Definition getitem (d : list (string * value)) (k : string) : M value :=
  match lookup d k with
  | Some v => ret v
  | None => raise (KeyError k)
  end.

(** [v[k]] with a string key: only a dict can be indexed by a string. *)
Definition subscript (v : value) (k : string) : M value :=
  match v with
  | VDict d => getitem d k
  | _ => raise TypeError
  end.

(** [l[i]] on a list: a negative index counts from the end. *)
Definition list_index {A : Type} (l : list A) (i : Z) : M A :=
  let n := Z.of_nat (length l) in
  let j := if i <? 0 then i + n else i in
  if (0 <=? j) && (j <? n) then
    match nth_error l (Z.to_nat j) with
    | Some x => ret x
    | None => raise IndexError
    end
  else raise IndexError.

(** [for x in v]: the elements of a list, the characters of a string, the
    keys of a dict; a class cannot be iterated. *)
Definition iterate (v : value) : M (list value) :=
  match v with
  | VList l => ret l
  | VStr s => ret (map (fun c => VStr (String c EmptyString)) (list_ascii_of_string s))
  | VDict d => ret (map (fun kv => VStr (fst kv)) d)
  | VClass _ => raise TypeError
  end.

(** [flatten]: a list is expanded in place, to any depth; strings and dicts
    are elements. *)
Fixpoint flatten_value (el : value) : list value :=
  match el with
  | VList l => flat_map flatten_value l
  | _ => [el]
  end.

Definition flatten (l : list value) : list value := flat_map flatten_value l.

(** [[s for s in rendered if isinstance(s, str)]] *)
Fixpoint strs_of (rendered : list value) : list string :=
  match rendered with
  | [] => []
  | VStr s :: r => s :: strs_of r
  | _ :: r => strs_of r
  end.

(** [[b for b in rendered if isinstance(b, dict)]] *)
Definition dicts_of (rendered : list value) : list value :=
  filter isinstance_dict rendered.

(** ["".join(l)]: every item has to be a string. *)
Fixpoint join (l : list value) : M string :=
  match l with
  | [] => ret EmptyString
  | VStr s :: r => t <- join r ;; ret (s ++ t)%string
  | _ :: r => raise TypeError
  end.

(** ** Strings *)

(** The truth value of a string. *)
Definition nonempty (s : string) : bool :=
  match s with EmptyString => false | String _ _ => true end.

Definition lower (c : ascii) : ascii :=
  let n := nat_of_ascii c in
  if (Nat.leb 65 n && Nat.leb n 90)%bool then ascii_of_nat (n + 32) else c.

Definition eqb_ignorecase (a b : ascii) : bool := Ascii.eqb (lower a) (lower b).

(** [re.match(re.escape(pattern), s, re.I)] finds a match: the escaped
    pattern stands for itself, so [s] has to begin with [pattern], letter
    case ignored. *)
Fixpoint re_match_escape_I (pattern s : string) : bool :=
  match pattern with
  | EmptyString => true
  | String p ps =>
      match s with
      | EmptyString => false
      | String c cs => eqb_ignorecase p c && re_match_escape_I ps cs
      end
  end.

Definition is_digit (c : ascii) : bool :=
  let n := nat_of_ascii c in (Nat.leb 48 n && Nat.leb n 57)%bool.

(** [re.match(r'\d', s)] finds a match. *)
Definition re_match_digit (s : string) : bool :=
  match s with
  | String c _ => is_digit c
  | EmptyString => false
  end.

(** [str(n)] for an integer. *)
Definition str_of_int (n : Z) : string := NilZero.string_of_int (Z.to_int n).

(** [next((x for x in l if p(x)), default)] *)
Fixpoint next_matching (p : string -> bool) (l : list string) (default : string) : string :=
  match l with
  | [] => default
  | x :: xs => if p x then x else next_matching p xs default
  end.

(** ** The syntax tree *)

(** The attributes the handlers read from a token, next to its header and
    its children. *)
Record attrs : Type := {
  level : Z;
  language : string;
  leader : string;
  content : string;
  target : string;
  title : string;
  src : string
}.

(** A token of the parser: the name of its class, its attributes, its
    header row when it has one (a table does, when the source has a
    delimiter line) and its children. *)
Inductive token : Type :=
| Token (class_name : string) (a : attrs) (header : option token)
        (children : list token).

Definition no_attrs : attrs :=
  {| level := 0; language := ""; leader := ""; content := ""; target := "";
     title := ""; src := "" |}.

(** The tokens of the parser's vocabulary. *)
Module Ast.
Definition Document cs := Token "Document" no_attrs None cs.
Definition Heading (l : Z) cs :=
  Token "Heading" {| level := l; language := ""; leader := ""; content := "";
                     target := ""; title := ""; src := "" |} None cs.
Definition Paragraph cs := Token "Paragraph" no_attrs None cs.
Definition Quote cs := Token "Quote" no_attrs None cs.
Definition ThematicBreak := Token "ThematicBreak" no_attrs None [].
Definition CodeBlock (lang : string) cs :=
  Token "CodeBlock" {| level := 0; language := lang; leader := ""; content := "";
                       target := ""; title := ""; src := "" |} None cs.
Definition List cs := Token "List" no_attrs None cs.
Definition ListItem (ldr : string) cs :=
  Token "ListItem" {| level := 0; language := ""; leader := ldr; content := "";
                      target := ""; title := ""; src := "" |} None cs.
Definition Table (hdr : option token) rows := Token "Table" no_attrs hdr rows.
Definition TableRow cells := Token "TableRow" no_attrs None cells.
Definition TableCell cs := Token "TableCell" no_attrs None cs.
Definition Strong cs := Token "Strong" no_attrs None cs.
Definition Emphasis cs := Token "Emphasis" no_attrs None cs.
Definition InlineCode cs := Token "InlineCode" no_attrs None cs.
Definition Strikethrough cs := Token "Strikethrough" no_attrs None cs.
Definition Link (tgt : string) cs :=
  Token "Link" {| level := 0; language := ""; leader := ""; content := "";
                  target := tgt; title := ""; src := "" |} None cs.
Definition Image (source ttl : string) cs :=
  Token "Image" {| level := 0; language := ""; leader := ""; content := "";
                   target := ""; title := ttl; src := source |} None cs.
Definition EscapeSequence cs := Token "EscapeSequence" no_attrs None cs.
Definition LineBreak := Token "LineBreak" no_attrs None [].
Definition RawText (text : string) :=
  Token "RawText" {| level := 0; language := ""; leader := ""; content := text;
                     target := ""; title := ""; src := "" |} None [].
End Ast.

(** ** The dispatch table *)

(** The methods of [NotionRenderer] that the table can name. *)
Inductive handler : Type :=
| HDocument | HBlockCode | HThematicBreak | HHeading | HQuote | HParagraph
| HList | HListItem | HTable | HTableRow | HTableCell | HStrong | HEmphasis
| HInlineCode | HRawText | HStrikethrough | HLink | HEscapeSequence
| HLineBreak | HImage.

(** Modelled from the spec: [render_map], the table that the base class
    [BaseRenderer] of mistletoe builds and that [render] reads, is not part
    of the sources. It has one entry for each node kind of the vocabulary,
    the handler of that kind. *)
Definition render_map : list (string * handler) :=
  [ ("Document", HDocument); ("Heading", HHeading); ("Paragraph", HParagraph);
    ("Quote", HQuote); ("ThematicBreak", HThematicBreak);
    ("CodeBlock", HBlockCode); ("List", HList); ("ListItem", HListItem);
    ("Table", HTable); ("TableRow", HTableRow); ("TableCell", HTableCell);
    ("Strong", HStrong); ("Emphasis", HEmphasis); ("InlineCode", HInlineCode);
    ("Strikethrough", HStrikethrough); ("Link", HLink); ("Image", HImage);
    ("EscapeSequence", HEscapeSequence); ("LineBreak", HLineBreak);
    ("RawText", HRawText) ].

Fixpoint registered (table : list (string * handler)) (name : string) : option handler :=
  match table with
  | [] => None
  | (k, h) :: rest => if String.eqb k name then Some h else registered rest name
  end.

(** ** The renderer *)

Definition notionSoLangs : list string :=
  [ "ABAP"; "Arduino"; "Bash"; "BASIC"; "C"; "Clojure"; "CoffeeScript"; "C++";
    "C#"; "CSS"; "Dart"; "Diff"; "Docker"; "Elixir"; "Elm"; "Erlang"; "Flow";
    "Fortran"; "F#"; "Gherkin"; "GLSL"; "Go"; "GraphQL"; "Groovy"; "Haskell";
    "HTML"; "Java"; "JavaScript"; "JSON"; "Kotlin"; "LaTeX"; "Less"; "Lisp";
    "LiveScript"; "Lua"; "Makefile"; "Markdown"; "Markup"; "MATLAB"; "Nix";
    "Objective-C"; "OCaml"; "Pascal"; "Perl"; "PHP"; "Plain Text";
    "PowerShell"; "Prolog"; "Python"; "R"; "Reason"; "Ruby"; "Rust"; "Sass";
    "Scala"; "Scheme"; "Scss"; "Shell"; "SQL"; "Swift"; "TypeScript";
    "VB.Net"; "Verilog"; "VHDL"; "Visual Basic"; "WebAssembly"; "XML"; "YAML" ].

(** The language lookup at the head of [render_block_code]. *)
Definition match_language (lang : string) : M string :=
  if nonempty lang then
    let matchLang := next_matching (re_match_escape_I lang) notionSoLangs "" in
    (if nonempty matchLang then ret tt
     else logger_info ("Code block language " ++ lang
                       ++ " has no corresponding syntax in Notion.so")%string) ;;;
    ret matchLang
  else ret "Plain Text"%string.

(** The level adjustment at the head of [render_heading]. *)
Definition clamp_level (lvl : Z) : M Z :=
  if 3 <? lvl then
    logger_info ("h" ++ str_of_int lvl
                 ++ " not supported in Notion.so, converting to h3")%string ;;;
    ret 3
  else ret lvl.

Definition table_cell_message : string :=
  "Table cell contained non-strings (maybe an image?) and could not add...".

Section NotionRenderer.

(** [self.render], the method the handlers call back into. *)
Variable render : token -> M value.

Definition render_multiple (tokens : list token) : M (list value) :=
  rendered <- mapM render tokens ;;
  ret (flatten rendered).

Definition toString (renderedBlock : value) : M value :=
  match renderedBlock with
  | VDict d =>
      ty <- getitem d "type" ;;
      if is_TextBlock ty then getitem d "title" else ret renderedBlock
  | _ => ret renderedBlock
  end.

Definition render_multiple_to_string (tokens : list token)
  : M (string * list value) :=
  bs <- render_multiple tokens ;;
  rendered <- mapM toString bs ;;
  let strs := String.concat "" (strs_of rendered) in
  let blocks := dicts_of rendered in
  ret (strs, blocks).

Definition render_multiple_to_string_and_combine
    (tokens : list token) (toBlockFunc : string -> M value) : M value :=
  sb <- render_multiple_to_string tokens ;;
  let (strs, blocks) := sb in
  r <- (if nonempty strs then b <- toBlockFunc strs ;; ret [b] else ret []) ;;
  ret (VList (r ++ blocks)).

Definition render_document (children : list token) : M value :=
  r <- render_multiple children ;; ret (VList r).

Definition render_block_code (lang : string) (children : list token) : M value :=
  matchLang <- match_language lang ;;
  let blockFunc (blockStr : string) : M value :=
    ret (VDict [ ("type", VClass CodeBlock);
                 ("language", VStr matchLang);
                 ("title_plaintext", VStr blockStr) ]) in
  render_multiple_to_string_and_combine children blockFunc.

Definition render_thematic_break : M value :=
  ret (VDict [ ("type", VClass DividerBlock) ]).

Definition render_heading (lvl : Z) (children : list token) : M value :=
  lvl' <- clamp_level lvl ;;
  let blockFunc (blockStr : string) : M value :=
    ty <- list_index [HeaderBlock; SubheaderBlock; SubsubheaderBlock] (lvl' - 1) ;;
    ret (VDict [ ("type", VClass ty); ("title", VStr blockStr) ]) in
  render_multiple_to_string_and_combine children blockFunc.

Definition render_quote (children : list token) : M value :=
  let blockFunc (blockStr : string) : M value :=
    ret (VDict [ ("type", VClass QuoteBlock); ("title", VStr blockStr) ]) in
  render_multiple_to_string_and_combine children blockFunc.

Definition render_paragraph (children : list token) : M value :=
  let blockFunc (blockStr : string) : M value :=
    ret (VDict [ ("type", VClass TextBlock); ("title", VStr blockStr) ]) in
  render_multiple_to_string_and_combine children blockFunc.

Definition render_list (children : list token) : M value :=
  r <- render_multiple children ;; ret (VList r).

Definition render_list_item (ldr : string) (children : list token) : M value :=
  let leaderContainsNumber := re_match_digit ldr in
  rendered <- render_multiple children ;;
  children' <- comprehension
                 (fun b => ty <- subscript b "type" ;; ret (negb (is_TextBlock ty)))
                 (fun b => ret b) rendered ;;
  strings <- comprehension
               (fun s => ty <- subscript s "type" ;; ret (is_TextBlock ty))
               (fun s => subscript s "title") rendered ;;
  ttl <- join strings ;;
  ret (VDict [ ("type", VClass (if leaderContainsNumber then NumberedListBlock
                                else BulletedListBlock));
               ("title", VStr ttl);
               ("children", VList children') ]).

Definition render_table (header : option token) (children : list token) : M value :=
  header_row <- match header with
                | Some h => render h
                | None => raise (AttributeError "header")
                end ;;
  rows <- mapM render children ;;
  cols <- iterate header_row ;;
  let schema := map (fun row => VDict [ ("name", row); ("type", VStr "text") ]) cols in
  ret (VDict [ ("type", VClass CollectionViewBlock);
               ("rows", VList rows);
               ("schema", VList schema) ]).

Definition render_table_row (children : list token) : M value :=
  r <- render_multiple children ;; ret (VList r).

Definition render_table_cell (children : list token) : M value :=
  sb <- render_multiple_to_string children ;;
  let (strs, blocks) := sb in
  (match blocks with
   | [] => ret tt
   | _ :: _ => logger_info table_cell_message
   end) ;;;
  ret (VStr strs).

Definition render_strong (children : list token) : M value :=
  render_multiple_to_string_and_combine children
    (fun s => ret (VStr ("**" ++ s ++ "**")%string)).

Definition render_emphasis (children : list token) : M value :=
  render_multiple_to_string_and_combine children
    (fun s => ret (VStr ("*" ++ s ++ "*")%string)).

Definition render_inline_code (children : list token) : M value :=
  render_multiple_to_string_and_combine children
    (fun s => ret (VStr ("`" ++ s ++ "`")%string)).

Definition render_raw_text (text : string) : M value := ret (VStr text).

Definition render_strikethrough (children : list token) : M value :=
  render_multiple_to_string_and_combine children
    (fun s => ret (VStr ("~" ++ s ++ "~")%string)).

Definition render_link (tgt : string) (children : list token) : M value :=
  sb <- render_multiple_to_string children ;;
  let (strs, blocks) := sb in
  ret (VList (VStr ("[" ++ strs ++ "](" ++ tgt ++ ")")%string :: blocks)).

Definition render_escape_sequence (children : list token) : M value :=
  render_multiple_to_string_and_combine children
    (fun s => ret (VStr ("\" ++ s)%string)).

Definition render_line_break : M value := ret (VStr " ").

Definition render_image (source ttl : string) (children : list token) : M value :=
  alt <- (if nonempty ttl then ret ttl
          else sb <- render_multiple_to_string children ;; ret (fst sb)) ;;
  ret (VDict [ ("type", VClass ImageBlock);
               ("display_source", VStr source);
               ("source", VStr source);
               ("caption", VStr alt) ]).

(** The handler applied to the token's attributes, header and children. *)
Definition call (h : handler) (a : attrs) (header : option token)
    (children : list token) : M value :=
  match h with
  | HDocument => render_document children
  | HBlockCode => render_block_code (language a) children
  | HThematicBreak => render_thematic_break
  | HHeading => render_heading (level a) children
  | HQuote => render_quote children
  | HParagraph => render_paragraph children
  | HList => render_list children
  | HListItem => render_list_item (leader a) children
  | HTable => render_table header children
  | HTableRow => render_table_row children
  | HTableCell => render_table_cell children
  | HStrong => render_strong children
  | HEmphasis => render_emphasis children
  | HInlineCode => render_inline_code children
  | HRawText => render_raw_text (content a)
  | HStrikethrough => render_strikethrough children
  | HLink => render_link (target a) children
  | HEscapeSequence => render_escape_sequence children
  | HLineBreak => render_line_break
  | HImage => render_image (src a) (title a) children
  end.

End NotionRenderer.

(** [render]: the handler is looked up under the name of the token's class
    and applied to the token; a name that is not in the table is a
    [KeyError]. *)
Fixpoint render (token : token) : M value :=
  match token with
  | Token name a header children =>
      match registered render_map name with
      | Some h => call render h a header children
      | None => raise (KeyError name)
      end
  end.

(** ** What the specification calls things *)

(** A block descriptor: a dict whose type is a class of [notion.block], with
    a string title when the class is [TextBlock]. *)
Definition is_block (v : value) : bool :=
  match v with
  | VDict d =>
      match lookup d "type" with
      | Some (VClass TextBlock) =>
          match lookup d "title" with Some (VStr _) => true | _ => false end
      | Some (VClass _) => true
      | _ => false
      end
  | _ => false
  end.

(** A Text block descriptor. *)
Definition is_text_block (v : value) : bool :=
  match v with
  | VDict d => match lookup d "type" with Some ty => is_TextBlock ty | None => false end
  | _ => false
  end.

(** An element of a rendered sequence: a string or a block descriptor. *)
Definition is_item (v : value) : bool := isinstance_str v || is_block v.

(** What [toString] returns for an element: the title of a Text block, any
    other element itself. *)
Definition unwrap (v : value) : value :=
  match v with
  | VDict d =>
      if is_text_block v then
        match lookup d "title" with Some t => t | None => v end
      else v
  | _ => v
  end.

(** The text an element contributes to the merged string: a string itself,
    a Text block its title, any other block nothing. *)
Definition text_of (v : value) : string :=
  match v with
  | VStr s => s
  | VDict d =>
      if is_text_block v then
        match lookup d "title" with Some (VStr s) => s | _ => EmptyString end
      else EmptyString
  | _ => EmptyString
  end.

(** The texts of the elements, concatenated in encounter order. *)
Fixpoint merged_text (rendered : list value) : string :=
  match rendered with
  | [] => EmptyString
  | v :: r => (text_of v ++ merged_text r)%string
  end.

(** The blocks that are not absorbed into the merged string, in their
    original relative order. *)
Definition non_string_blocks (rendered : list value) : list value :=
  filter (fun v => isinstance_dict v && negb (is_text_block v)) rendered.

(** The titles of the Text blocks among the elements, concatenated in
    encounter order. *)
Fixpoint text_titles (rendered : list value) : string :=
  match rendered with
  | [] => EmptyString
  | v :: r => ((if is_text_block v then text_of v else EmptyString) ++ text_titles r)%string
  end.

(** The elements that are not Text blocks, in their original order. *)
Definition non_text_blocks (rendered : list value) : list value :=
  filter (fun v => negb (is_text_block v)) rendered.

(** [needle] occurs in [hay]. *)
Definition contains (hay needle : string) : Prop :=
  exists before after : string, hay = (before ++ needle ++ after)%string.

(** [lang] is a prefix of [label], letter case ignored. *)
Inductive prefix_ignorecase : string -> string -> Prop :=
| prefix_empty (label : string) : prefix_ignorecase EmptyString label
| prefix_char (p c : ascii) (lang label : string) :
    lower p = lower c ->
    prefix_ignorecase lang label ->
    prefix_ignorecase (String p lang) (String c label).

(** [label] is the first label of the list that [lang] is a prefix of. *)
Definition first_label (lang : string) (labels : list string) (label : string) : Prop :=
  exists before after : list string,
    labels = before ++ label :: after /\
    prefix_ignorecase lang label /\
    Forall (fun l => ~ prefix_ignorecase lang l) before.

(** The records [log], logged before what follows. *)
Definition logged (log : list string) : M unit := (Ok tt, log).

(** [r] returns nothing but strings and block descriptors at [t]. *)
Definition renders_items (r : token -> M value) (t : token) : Prop :=
  forall v log, r t = (Ok v, log) -> forallb is_item (flatten_value v) = true.

Definition class_of (t : token) : string :=
  match t with Token name _ _ _ => name end.

(** *** Block descriptors by kind *)

Definition text_block (s : string) : value :=
  VDict [ ("type", VClass TextBlock); ("title", VStr s) ].

Definition heading_block (kind : notion_class) (s : string) : value :=
  VDict [ ("type", VClass kind); ("title", VStr s) ].

Definition code_block (label text : string) : value :=
  VDict [ ("type", VClass CodeBlock); ("language", VStr label);
          ("title_plaintext", VStr text) ].

Definition list_item_block (numbered : bool) (ttl : string) (children : list value)
  : value :=
  VDict [ ("type", VClass (if numbered then NumberedListBlock else BulletedListBlock));
          ("title", VStr ttl); ("children", VList children) ].

(** A row as an array of strings. *)
Definition row_value (cells : list string) : value := VList (map VStr cells).

(** A text column of a schema. *)
Definition column (name : string) : value :=
  VDict [ ("name", VStr name); ("type", VStr "text") ].

Definition table_block (rows : list (list string)) (header : list string) : value :=
  VDict [ ("type", VClass CollectionViewBlock);
          ("rows", VList (map row_value rows));
          ("schema", VList (map column header)) ].

(** *** Headings *)

(** The kind of block of a heading of level 1 to 6. *)
Definition heading_kind (lvl : Z) : option notion_class :=
  match lvl with
  | 1 => Some HeaderBlock
  | 2 => Some SubheaderBlock
  | 3 | 4 | 5 | 6 => Some SubsubheaderBlock
  | _ => None
  end.

(** The diagnostic of a heading: one record for a level above 3. *)
Definition heading_diagnostic (lvl : Z) : list string :=
  if 3 <? lvl
  then [("h" ++ str_of_int lvl ++ " not supported in Notion.so, converting to h3")%string]
  else [].

(** *** Inline spans that keep their sigils *)

Inductive span : Type := SStrong | SEmphasis | SInlineCode | SStrikethrough.

Definition span_token (k : span) (children : list token) : token :=
  match k with
  | SStrong => Ast.Strong children
  | SEmphasis => Ast.Emphasis children
  | SInlineCode => Ast.InlineCode children
  | SStrikethrough => Ast.Strikethrough children
  end.

Definition sigil (k : span) : string :=
  match k with
  | SStrong => "**"
  | SEmphasis => "*"
  | SInlineCode => "`"
  | SStrikethrough => "~"
  end.

Definition wrapped (k : span) (s : string) : string := (sigil k ++ s ++ sigil k)%string.

(** The handlers whose result begins with a string built around the text
    of the children: the spans, the escape sequence and the link. *)
Definition carries_text (h : handler) : bool :=
  match h with
  | HStrong | HEmphasis | HInlineCode | HStrikethrough | HEscapeSequence | HLink => true
  | _ => false
  end.

(** [within t u]: [u] is [t], or sits in [t] under spans, escape sequences
    and links. *)
Inductive within : token -> token -> Prop :=
| within_self (t : token) : within t t
| within_child (name : string) (a : attrs) (header : option token)
    (children : list token) (h : handler) (c u : token) :
    registered render_map name = Some h ->
    carries_text h = true ->
    In c children ->
    within c u ->
    within (Token name a header children) u.

(** The text that [v] contributes to a merged string contains [w]. *)
Definition shows (v : value) (w : string) : Prop :=
  contains (merged_text (flatten_value v)) w.

(** *** List items *)

Definition digits : list ascii :=
  ["0"; "1"; "2"; "3"; "4"; "5"; "6"; "7"; "8"; "9"]%char.

(** The leader begins with a digit. *)
Definition begins_with_digit (ldr : string) : Prop :=
  exists (d : ascii) (rest : string), In d digits /\ ldr = String d rest.

(** *** Code languages *)

Definition language_diagnostic (lang : string) : string :=
  ("Code block language " ++ lang ++ " has no corresponding syntax in Notion.so")%string.

(** The label and the diagnostics of a declared language, case by case. *)
Inductive resolves : string -> string -> list string -> Prop :=
| resolves_untagged : resolves "" "Plain Text" []
| resolves_first (lang label : string) :
    lang <> EmptyString ->
    first_label lang notionSoLangs label ->
    resolves lang label []
| resolves_fallback (lang : string) :
    lang <> EmptyString ->
    (forall label, In label notionSoLangs -> ~ prefix_ignorecase lang label) ->
    resolves lang "" [language_diagnostic lang].

(** *** Tokens that a render call reaches *)

(** The handler renders the children of its token. *)
Definition renders_children (h : handler) (a : attrs) : bool :=
  match h with
  | HThematicBreak | HRawText | HLineBreak => false
  | HImage => negb (nonempty (title a))
  | _ => true
  end.

(** [reaches t u]: rendering [t] calls [render] on [u], unless an error
    comes first. *)
Inductive reaches : token -> token -> Prop :=
| reaches_self (t : token) : reaches t t
| reaches_child (name : string) (a : attrs) (header : option token)
    (children : list token) (h : handler) (c u : token) :
    registered render_map name = Some h ->
    renders_children h a = true ->
    In c children ->
    reaches c u ->
    reaches (Token name a header children) u
| reaches_header (name : string) (a : attrs) (c : token)
    (children : list token) (u : token) :
    registered render_map name = Some HTable ->
    reaches c u ->
    reaches (Token name a (Some c) children) u.

(** The call raises. *)
Definition raises {A : Type} (m : M A) : Prop := exists e, outcome m = Raise e.

(** *** Tables *)

(** The rows of a Table block. *)
Definition rows_of (v : value) : list value :=
  match v with
  | VDict d => match lookup d "rows" with Some (VList rows) => rows | _ => [] end
  | _ => []
  end.

(** The table of the specification: header cells Name and Age, one data row
    Ada, 36. The parser keeps the header row in [header] and the rows below
    the delimiter line in [children]. *)
Definition example_table : token :=
  Ast.Table
    (Some (Ast.TableRow [Ast.TableCell [Ast.RawText "Name"];
                         Ast.TableCell [Ast.RawText "Age"]]))
    [Ast.TableRow [Ast.TableCell [Ast.RawText "Ada"];
                   Ast.TableCell [Ast.RawText "36"]]].

(** *** Block tokens *)

(** The tokens that stand for blocks of the document, as the parser nests
    them under a list item: each renders to block descriptors alone. *)
Definition block_token (t : token) : bool :=
  match t with
  | Token name _ _ children =>
      existsb (String.eqb name)
        ["Heading"; "Paragraph"; "Quote"; "CodeBlock"; "ThematicBreak";
         "ListItem"; "Table"]%string
      || (String.eqb name "List"
          && forallb (fun c => String.eqb (class_of c) "ListItem") children)
  end.

(** *** Further notions *)

Definition isinstance_list (v : value) : bool :=
  match v with VList _ => true | _ => false end.

(** The handlers that return the rendered children themselves: the
    document, the list and the table row. *)
Definition returns_children (h : handler) : bool :=
  match h with
  | HDocument | HList | HTableRow => true
  | _ => false
  end.

(** What a paragraph returns whose children render to [rendered]. *)
Definition paragraph_items (rendered : list value) : list value :=
  if nonempty (merged_text rendered)
  then text_block (merged_text rendered) :: non_string_blocks rendered
  else non_string_blocks rendered.

Definition image_block (source caption : string) : value :=
  VDict [ ("type", VClass ImageBlock); ("display_source", VStr source);
          ("source", VStr source); ("caption", VStr caption) ].

(** Two strings that differ in letter case at most. *)
Definition same_ignorecase (a b : string) : Prop :=
  map lower (list_ascii_of_string a) = map lower (list_ascii_of_string b).

(** The records that the handlers log. *)
Definition diagnostic (m : string) : Prop :=
  m = table_cell_message \/
  (exists lang, m = language_diagnostic lang) \/
  (exists lvl, 3 < lvl /\ heading_diagnostic lvl = [m]).

(** [cause u e]: the handler of the token [u] raises [e] by itself: the
    class of [u] is not in the table; [u] is a list item with a child that
    is no block token; [u] is a heading of a level below -2; [u] is a table
    without header row. *)
Definition cause (u : token) (e : exn) : Prop :=
  match u with
  | Token name a header children =>
      match e with
      | KeyError k => k = name /\ registered render_map name = None
      | TypeError =>
          registered render_map name = Some HListItem /\
          forallb block_token children = false
      | IndexError =>
          registered render_map name = Some HHeading /\ level a < -2
      | AttributeError n =>
          n = "header"%string /\ registered render_map name = Some HTable /\
          header = None
      end
  end.

(** A tree as the parser builds it: every class is in the table, a heading
    has a level from 1, a table has a header row, the children of a list
    item are block tokens. *)
Fixpoint well_formed (t : token) : bool :=
  match t with
  | Token name a header children =>
      match registered render_map name with
      | None => false
      | Some h =>
          forallb well_formed children
          && match h with
             | HHeading => 1 <=? level a
             | HTable => match header with
                         | Some row => well_formed row
                         | None => false
                         end
             | HListItem => forallb block_token children
             | _ => true
             end
      end
  end.

(** ** Induction on values *)

Section value_induction.
Variable P : value -> Prop.
Hypothesis P_VStr : forall s, P (VStr s).
Hypothesis P_VClass : forall c, P (VClass c).
Hypothesis P_VList : forall l, Forall P l -> P (VList l).
Hypothesis P_VDict : forall d, P (VDict d).

Fixpoint value_induction (v : value) : P v :=
  match v with
  | VStr s => P_VStr s
  | VClass c => P_VClass c
  | VList l =>
      P_VList ((fix go (l : list value) : Forall P l :=
                  match l with
                  | [] => Forall_nil P
                  | x :: xs => Forall_cons x (value_induction x) (go xs)
                  end) l)
  | VDict d => P_VDict d
  end.
End value_induction.

(** ** Induction on tokens *)

Section token_induction.
Variable P : token -> Prop.
Hypothesis P_Token :
  forall name a header children,
    (forall h, header = Some h -> P h) ->
    Forall P children ->
    P (Token name a header children).

Fixpoint token_induction (t : token) : P t :=
  match t with
  | Token name a header children =>
      P_Token name a
        (match header as o return (forall h, o = Some h -> P h) with
         | Some h0 => fun h E =>
             match E in (_ = o') return (match o' with Some x => P x | None => True end) with
             | eq_refl => token_induction h0
             end
         | None => fun h E =>
             match E in (_ = o') return (match o' with Some x => P x | None => True end) with
             | eq_refl => I
             end
         end)
        ((fix go (l : list token) : Forall P l :=
            match l with
            | [] => Forall_nil P
            | x :: xs => Forall_cons x (token_induction x) (go xs)
            end) children)
  end.
End token_induction.

(** ** Reasoning about outcomes *)

Lemma bind_Ok (A B : Type) (m : M A) (f : A -> M B) (b : B) (log : list string) :
  bind m f = (Ok b, log) ->
  exists a l1 l2, m = (Ok a, l1) /\ f a = (Ok b, l2) /\ log = l1 ++ l2.
Proof.
  unfold bind. destruct m as [[a|e] l1]; [|discriminate].
  destruct (f a) as [r l2] eqn:E. intros H. inversion H; subst.
  exists a, l1, l2. auto.
Qed.

Lemma bind_step (A B : Type) (m : M A) (f : A -> M B) (a : A) (l1 : list string) :
  m = (Ok a, l1) -> bind m f = (fst (f a), l1 ++ snd (f a)).
Proof. intros ->. unfold bind. destruct (f a); reflexivity. Qed.

Lemma bind_ret_l (A B : Type) (a : A) (f : A -> M B) : bind (ret a) f = f a.
Proof. unfold bind, ret. destruct (f a); reflexivity. Qed.

Lemma bind_pure (A B : Type) (a : A) (f : A -> M B) : bind (Ok a, []) f = f a.
Proof. apply bind_ret_l. Qed.

(** A call that raises makes the call around it raise. *)
Lemma bind_raises (A B : Type) (m : M A) (f : A -> M B) :
  (exists e, outcome m = Raise e) -> exists e, outcome (bind m f) = Raise e.
Proof.
  intros [e H]. destruct m as [[a|e'] l]; simpl in H; [discriminate|].
  exists e'. reflexivity.
Qed.

(** [bind_inv H E]: from [H : bind m f = (Ok b, log)], the outcome [E] of
    [m]; [H] becomes the outcome of the continuation. *)
Ltac bind_inv H E :=
  let a := fresh "a" in
  let l1 := fresh "lg" in
  let l2 := fresh "lg" in
  let El := fresh "El" in
  apply bind_Ok in H; destruct H as (a & l1 & l2 & E & H & El).

Ltac bind_skip H :=
  apply bind_Ok in H; destruct H as (? & ? & ? & _ & H & _).

Ltac ret_inv H := unfold ret in H; inversion H; subst; clear H.

Lemma render_unfold (name : string) (a : attrs) (header : option token)
    (children : list token) :
  render (Token name a header children) =
  match registered render_map name with
  | Some h => call render h a header children
  | None => raise (KeyError name)
  end.
Proof. reflexivity. Qed.

(** ** Sample renderings *)

Example render_document_sample :
  render (Ast.Document
            [Ast.Heading 1 [Ast.RawText "Title"];
             Ast.Paragraph [Ast.RawText "see "; Ast.Link "http://x" [Ast.RawText "this"]];
             Ast.ThematicBreak])
  = (Ok (VList [heading_block HeaderBlock "Title";
                text_block "see [this](http://x)";
                VDict [("type", VClass DividerBlock)]]), []).
Proof. reflexivity. Qed.

Example render_code_untagged :
  render (Ast.CodeBlock "" [Ast.RawText "x"])
  = (Ok (VList [code_block "Plain Text" "x"]), []).
Proof. reflexivity. Qed.

Example render_code_unknown :
  render (Ast.CodeBlock "xyz123" [Ast.RawText "x"])
  = (Ok (VList [code_block "" "x"]),
     ["Code block language xyz123 has no corresponding syntax in Notion.so"]).
Proof. reflexivity. Qed.

Example render_code_empty :
  render (Ast.CodeBlock "py" []) = (Ok (VList []), []).
Proof. reflexivity. Qed.

(** A string directly under a list item cannot be indexed by ['type']. *)
Example render_list_item_bare_text :
  render (Ast.ListItem "-" [Ast.RawText "c"]) = (Raise TypeError, []).
Proof. reflexivity. Qed.

(** A table without a header row has no [header] attribute. *)
Example render_table_without_header :
  render (Ast.Table None []) = (Raise (AttributeError "header"), []).
Proof. reflexivity. Qed.

(** The records logged before an error stay logged. *)
Example render_error_after_record :
  render (Ast.Document [Ast.Heading 4 [Ast.RawText "h"];
                        Token "HTMLBlock" no_attrs None []])
  = (Raise (KeyError "HTMLBlock"),
     ["h4 not supported in Notion.so, converting to h3"]).
Proof. reflexivity. Qed.

(** The handlers that are the merge step with a block constructor of
    their own. *)
Lemma merge_users (children : list token) :
  let merge := render_multiple_to_string_and_combine render children in
  render (Ast.Paragraph children) = merge (fun s => ret (text_block s)) /\
  render (Ast.Quote children) = merge (fun s => ret (heading_block QuoteBlock s)) /\
  render (Ast.Strong children) = merge (fun s => ret (VStr ("**" ++ s ++ "**")%string)) /\
  render (Ast.Emphasis children) = merge (fun s => ret (VStr ("*" ++ s ++ "*")%string)) /\
  render (Ast.InlineCode children) = merge (fun s => ret (VStr ("`" ++ s ++ "`")%string)) /\
  render (Ast.Strikethrough children)
    = merge (fun s => ret (VStr ("~" ++ s ++ "~")%string)) /\
  render (Ast.EscapeSequence children) = merge (fun s => ret (VStr ("\" ++ s)%string)) /\
  (forall lvl, render (Ast.Heading lvl children) =
     (lvl' <- clamp_level lvl ;;
      merge (fun s =>
               ty <- list_index [HeaderBlock; SubheaderBlock; SubsubheaderBlock] (lvl' - 1) ;;
               ret (heading_block ty s)))) /\
  (forall lang, render (Ast.CodeBlock lang children) =
     (label <- match_language lang ;; merge (fun s => ret (code_block label s)))).
Proof. repeat split. Qed.

(** ** Sequences of rendered elements *)

Lemma is_item_flatten (v : value) : is_item v = true -> flatten_value v = [v].
Proof. destruct v; simpl; try reflexivity; discriminate. Qed.

Lemma items_flatten (l : list value) :
  forallb is_item l = true -> flatten l = l.
Proof.
  unfold flatten. induction l as [|v l IH]; simpl; [reflexivity|].
  intros H. apply andb_prop in H. destruct H as [Hv Hl].
  rewrite (is_item_flatten v Hv), (IH Hl). reflexivity.
Qed.

Lemma forallb_flat_map (A B : Type) (p : B -> bool) (f : A -> list B) (l : list A) :
  Forall (fun x => forallb p (f x) = true) l -> forallb p (flat_map f l) = true.
Proof.
  induction 1 as [|x l Hx Hl IH]; simpl; [reflexivity|].
  rewrite forallb_app, Hx, IH. reflexivity.
Qed.

Lemma is_block_item (v : value) : is_block v = true -> is_item v = true.
Proof. unfold is_item. intros ->. apply orb_true_r. Qed.

Lemma non_string_blocks_items (l : list value) :
  forallb is_item l = true -> forallb is_item (non_string_blocks l) = true.
Proof.
  unfold non_string_blocks. induction l as [|v l IH]; simpl; [reflexivity|].
  intros H. apply andb_prop in H. destruct H as [Hv Hl].
  destruct (isinstance_dict v && negb (is_text_block v)); simpl; auto.
  rewrite Hv. auto.
Qed.

Lemma non_string_blocks_dicts (l : list value) :
  forallb isinstance_dict (non_string_blocks l) = true.
Proof.
  unfold non_string_blocks. induction l as [|v l IH]; simpl; [reflexivity|].
  destruct (isinstance_dict v) eqn:E; simpl; [|assumption].
  destruct (negb (is_text_block v)); simpl; [rewrite E|]; assumption.
Qed.

Lemma concat_cons (s : string) (l : list string) :
  String.concat "" (s :: l) = (s ++ String.concat "" l)%string.
Proof.
  destruct l as [|x l]; simpl; [|reflexivity].
  induction s; simpl; congruence.
Qed.

Lemma mapM_pure (A B : Type) (f : A -> M B) (g : A -> B) (l : list A) :
  Forall (fun x => f x = (Ok (g x), [])) l -> mapM f l = (Ok (map g l), []).
Proof.
  induction 1 as [|x l Hx Hl IH]; [reflexivity|].
  change (mapM f (x :: l)) with (y <- f x ;; ys <- mapM f l ;; ret (y :: ys)).
  rewrite Hx, IH. reflexivity.
Qed.

Lemma toString_item (v : value) :
  is_item v = true -> toString v = (Ok (unwrap v), []).
Proof.
  destruct v as [s|c|vs|d]; try reflexivity.
  unfold is_item, is_block, toString, unwrap, is_text_block, getitem. simpl.
  destruct (lookup d "type") as [[| [] | |]|]; try discriminate; try reflexivity.
  destruct (lookup d "title") as [[t| | |]|]; try discriminate. reflexivity.
Qed.

Lemma unwrap_text (v : value) (l : list value) :
  is_item v = true ->
  strs_of (unwrap v :: l) =
    (if isinstance_str (unwrap v) then text_of v :: strs_of l else strs_of l) /\
  (isinstance_str (unwrap v) = false -> text_of v = EmptyString) /\
  isinstance_dict (unwrap v) = isinstance_dict v && negb (is_text_block v).
Proof.
  destruct v as [s|c|vs|d]; intros H; try discriminate H;
    [simpl; repeat split; congruence|].
  revert H. unfold is_item, is_block, unwrap, text_of, is_text_block. simpl.
  destruct (lookup d "type") as [[| [] | |]|]; try discriminate; simpl; auto.
  destruct (lookup d "title") as [[t| | |]|]; try discriminate. simpl.
  repeat split; congruence.
Qed.

(** On a sequence of elements [toString] never raises, and what
    [render_multiple_to_string] computes from its results is the merged
    text and the blocks that are left. *)
Lemma toString_items (l : list value) :
  forallb is_item l = true ->
  mapM toString l = (Ok (map unwrap l), []) /\
  String.concat "" (strs_of (map unwrap l)) = merged_text l /\
  dicts_of (map unwrap l) = non_string_blocks l.
Proof.
  intros H. split.
  - apply mapM_pure. apply Forall_forall. intros v Hv. apply toString_item.
    rewrite forallb_forall in H. auto.
  - induction l as [|v l IH]; [split; reflexivity|].
    simpl in H. apply andb_prop in H. destruct H as [Hv Hl].
    destruct (IH Hl) as [Es Ed].
    destruct (unwrap_text v (map unwrap l) Hv) as (E1 & E2 & E3).
    split.
    + change (map unwrap (v :: l)) with (unwrap v :: map unwrap l).
      rewrite E1. change (merged_text (v :: l)) with (text_of v ++ merged_text l)%string.
      destruct (isinstance_str (unwrap v)).
      * rewrite concat_cons, Es. reflexivity.
      * rewrite (E2 eq_refl), Es. reflexivity.
    + unfold dicts_of, non_string_blocks in *.
      change (map unwrap (v :: l)) with (unwrap v :: map unwrap l).
      cbn [filter]. rewrite E3, Ed.
      destruct (isinstance_dict v && negb (is_text_block v)) eqn:E; [|reflexivity].
      f_equal. destruct v as [s|c|vs|d]; cbn [isinstance_dict andb] in E;
        try discriminate E.
      apply negb_true_iff in E. unfold unwrap. rewrite E. reflexivity.
Qed.

Section Handlers.
Variable r : token -> M value.

Lemma render_multiple_to_string_items (tokens : list token)
    (rendered : list value) (log : list string) :
  render_multiple r tokens = (Ok rendered, log) ->
  forallb is_item rendered = true ->
  render_multiple_to_string r tokens =
    (Ok (merged_text rendered, non_string_blocks rendered), log).
Proof.
  intros E H. unfold render_multiple_to_string.
  rewrite (bind_step _ E).
  destruct (toString_items rendered H) as (E' & Es & Ed).
  rewrite (bind_step _ E'). simpl. rewrite Es, Ed, !app_nil_r. reflexivity.
Qed.

(** The merge step, when the children render to a sequence of elements. *)
Lemma combine_items (tokens : list token) (toBlockFunc : string -> M value)
    (rendered : list value) (log : list string) :
  render_multiple r tokens = (Ok rendered, log) ->
  forallb is_item rendered = true ->
  render_multiple_to_string_and_combine r tokens toBlockFunc =
    if nonempty (merged_text rendered) then
      (fst (b <- toBlockFunc (merged_text rendered) ;;
            ret (VList (b :: non_string_blocks rendered))),
       log ++ snd (toBlockFunc (merged_text rendered)))
    else (Ok (VList (non_string_blocks rendered)), log).
Proof.
  intros E H. unfold render_multiple_to_string_and_combine.
  rewrite (bind_step _ (render_multiple_to_string_items _ E H)).
  destruct (nonempty (merged_text rendered)).
  - destruct (toBlockFunc (merged_text rendered)) as [[b|e] l]; simpl;
      rewrite ?app_nil_r; reflexivity.
  - simpl. rewrite app_nil_r. reflexivity.
Qed.

Lemma mapM_Ok (A B : Type) (f : A -> M B) (l : list A) (ys : list B)
    (log : list string) :
  mapM f l = (Ok ys, log) ->
  Forall2 (fun x y => exists lg, f x = (Ok y, lg)) l ys.
Proof.
  revert ys log. induction l as [|x l IH]; intros ys log H.
  - ret_inv H. constructor.
  - change (mapM f (x :: l)) with (y <- f x ;; ys <- mapM f l ;; ret (y :: ys)) in H.
    bind_inv H Ex. bind_inv H El'. ret_inv H.
    constructor; [eexists; eassumption | eapply IH; eassumption].
Qed.

Lemma render_multiple_items (tokens : list token) (rendered : list value)
    (log : list string) :
  Forall (renders_items r) tokens ->
  render_multiple r tokens = (Ok rendered, log) ->
  forallb is_item rendered = true.
Proof.
  intros HF H. unfold render_multiple in H. bind_inv H E. ret_inv H.
  apply mapM_Ok in E. unfold flatten. apply forallb_flat_map.
  induction E as [|t v ts vs [lg' Hv] _ IH]; constructor.
  - inversion HF; subst. eauto.
  - inversion HF; subst. auto.
Qed.

Lemma render_multiple_to_string_Ok (tokens : list token) (strs : string)
    (blocks : list value) (log : list string) :
  Forall (renders_items r) tokens ->
  render_multiple_to_string r tokens = (Ok (strs, blocks), log) ->
  exists rendered,
    render_multiple r tokens = (Ok rendered, log) /\
    forallb is_item rendered = true /\
    strs = merged_text rendered /\
    blocks = non_string_blocks rendered.
Proof.
  intros HF H. pose proof H as H0. unfold render_multiple_to_string in H0.
  apply bind_Ok in H0. destruct H0 as (rendered & l1 & l2 & E & _ & _).
  pose proof (render_multiple_items HF E) as Hi.
  rewrite (render_multiple_to_string_items _ E Hi) in H. inversion H; subst.
  exists rendered. repeat split; assumption.
Qed.

Lemma combine_renders_items (tokens : list token)
    (toBlockFunc : string -> M value) (v : value) (log : list string) :
  Forall (renders_items r) tokens ->
  (forall s b l, toBlockFunc s = (Ok b, l) -> is_item b = true) ->
  render_multiple_to_string_and_combine r tokens toBlockFunc = (Ok v, log) ->
  forallb is_item (flatten_value v) = true.
Proof.
  intros HF Hf H. unfold render_multiple_to_string_and_combine in H.
  bind_inv H E. destruct a as [strs blocks].
  destruct (render_multiple_to_string_Ok HF E) as (rendered & _ & Hi & -> & ->).
  pose proof (non_string_blocks_items _ Hi) as Hb.
  bind_inv H Eb. ret_inv H.
  assert (Ha : forallb is_item (a ++ non_string_blocks rendered) = true).
  { rewrite forallb_app, Hb, andb_true_r.
    destruct (nonempty (merged_text rendered)).
    - bind_inv Eb Ef. ret_inv Eb. simpl. rewrite (Hf _ _ _ Ef). reflexivity.
    - ret_inv Eb. reflexivity. }
  change (forallb is_item (flatten (a ++ non_string_blocks rendered)) = true).
  rewrite (items_flatten _ Ha). exact Ha.
Qed.

Lemma combine_dicts (tokens : list token)
    (toBlockFunc : string -> M value) (v : value) (log : list string) :
  Forall (renders_items r) tokens ->
  (forall s b l, toBlockFunc s = (Ok b, l) -> is_block b = true) ->
  render_multiple_to_string_and_combine r tokens toBlockFunc = (Ok v, log) ->
  forallb isinstance_dict (flatten_value v) = true.
Proof.
  intros HF Hf H. unfold render_multiple_to_string_and_combine in H.
  bind_inv H E. destruct a as [strs blocks].
  destruct (render_multiple_to_string_Ok HF E) as (rendered & _ & Hi & -> & ->).
  pose proof (non_string_blocks_items _ Hi) as Hb.
  pose proof (non_string_blocks_dicts rendered) as Hd.
  bind_inv H Eb. ret_inv H.
  assert (Ha : forallb is_block a = true).
  { destruct (nonempty (merged_text rendered)).
    - bind_inv Eb Ef. ret_inv Eb. simpl. rewrite (Hf _ _ _ Ef). reflexivity.
    - ret_inv Eb. reflexivity. }
  assert (Hai : forallb is_item (a ++ non_string_blocks rendered) = true).
  { rewrite forallb_app, Hb, andb_true_r. rewrite forallb_forall in *.
    intros x Hx. apply is_block_item. auto. }
  change (forallb isinstance_dict (flatten (a ++ non_string_blocks rendered)) = true).
  rewrite (items_flatten _ Hai), forallb_app, Hd, andb_true_r.
  rewrite forallb_forall in *. intros x Hx. specialize (Ha x Hx).
  destruct x; try discriminate Ha. reflexivity.
Qed.

Lemma call_renders_items (h : handler) (a : attrs) (header : option token)
    (children : list token) (v : value) (log : list string) :
  Forall (renders_items r) children ->
  call r h a header children = (Ok v, log) ->
  forallb is_item (flatten_value v) = true.
Proof.
  intros HF H.
  assert (Hl : forall x l0, render_multiple r children = (Ok x, l0) ->
               forallb is_item (flatten_value (VList x)) = true).
  { intros x l0 E. pose proof (render_multiple_items HF E) as Hi.
    change (forallb is_item (flatten x) = true).
    rewrite (items_flatten _ Hi). exact Hi. }
  destruct h; simpl in H;
    try (eapply combine_renders_items;
         [ exact HF | | exact H ]; intros s0 b0 lg Ef; ret_inv Ef; reflexivity).
  - (* Document *)
    unfold render_document in H. bind_inv H E. ret_inv H. eauto.
  - (* BlockCode *)
    unfold render_block_code in H. bind_inv H E.
    eapply combine_renders_items; [ exact HF | | exact H ].
    intros s0 b0 lg' Ef. ret_inv Ef. reflexivity.
  - (* ThematicBreak *)
    ret_inv H. reflexivity.
  - (* Heading *)
    unfold render_heading in H. bind_inv H E.
    eapply combine_renders_items; [ exact HF | | exact H ].
    intros s0 b0 lg' Ef. bind_inv Ef Ei. ret_inv Ef.
    match goal with c : notion_class |- _ => destruct c; reflexivity end.
  - (* List *)
    unfold render_list in H. bind_inv H E. ret_inv H. eauto.
  - (* ListItem *)
    unfold render_list_item in H. do 4 bind_skip H. ret_inv H.
    destruct (re_match_digit (leader a)); reflexivity.
  - (* Table *)
    unfold render_table in H. do 3 bind_skip H. ret_inv H. reflexivity.
  - (* TableRow *)
    unfold render_table_row in H. bind_inv H E. ret_inv H. eauto.
  - (* TableCell *)
    unfold render_table_cell in H. bind_inv H E.
    match goal with p : (string * list value)%type |- _ => destruct p end.
    bind_skip H. ret_inv H. reflexivity.
  - (* RawText *)
    ret_inv H. reflexivity.
  - (* Link *)
    unfold render_link in H. bind_inv H E.
    match goal with p : (string * list value)%type |- _ => destruct p as [strs blocks] end.
    ret_inv H.
    destruct (render_multiple_to_string_Ok HF E) as (rendered & _ & Hi & -> & ->).
    pose proof (non_string_blocks_items _ Hi) as Hb.
    match goal with
    | |- forallb is_item (flatten_value (VList ?x)) = true =>
        assert (Ha : forallb is_item x = true) by (simpl; exact Hb);
        change (forallb is_item (flatten x) = true);
        rewrite (items_flatten _ Ha); exact Ha
    end.
  - (* LineBreak *)
    ret_inv H. reflexivity.
  - (* Image *)
    unfold render_image in H. bind_skip H. ret_inv H. reflexivity.
Qed.
End Handlers.

(** Every value [render] returns is a string, a block descriptor or a list
    of strings and block descriptors. *)
Lemma render_items (t : token) : renders_items render t.
Proof.
  induction t as [name a header children _ IH] using token_induction.
  intros v log H. rewrite render_unfold in H.
  destruct (registered render_map name) as [h|]; [|discriminate].
  eapply call_renders_items; eassumption.
Qed.

Lemma render_all_items (tokens : list token) : Forall (renders_items render) tokens.
Proof. apply Forall_forall. intros t _. apply render_items. Qed.

(** ** The merge step *)

Lemma logged_bind (A : Type) (log : list string) (m : M A) :
  (logged log ;;; m) = (fst m, log ++ snd m).
Proof. unfold logged, bind. destruct m; reflexivity. Qed.

(** C2. The merge step of [render_multiple_to_string_and_combine]: when the
    child tokens render to the sequence [rendered], the strings among them
    and the titles of the Text blocks among them are concatenated in
    encounter order; a non-empty joined string is wrapped by the block
    constructor of the caller and comes first, followed by the blocks that
    are not strings, in their original order; an empty joined string gives
    no string block. For a paragraph the constructor makes a Text block, so
    the Text block precedes an image wherever the image stood. *)
Theorem merge_step (tokens : list token) (toBlockFunc : string -> M value)
    (rendered : list value) (log : list string) :
  render_multiple render tokens = (Ok rendered, log) ->
  let strs := merged_text rendered in
  let blocks := non_string_blocks rendered in
  render_multiple_to_string render tokens = (Ok (strs, blocks), log) /\
  render_multiple_to_string_and_combine render tokens toBlockFunc =
    (logged log ;;;
     if nonempty strs
     then b <- toBlockFunc strs ;; ret (VList (b :: blocks))
     else ret (VList blocks)) /\
  render (Ast.Paragraph tokens) =
    (Ok (VList (if nonempty strs then text_block strs :: blocks else blocks)), log).
Proof.
  intros E strs blocks.
  pose proof (render_multiple_items (render_all_items tokens) E) as Hi.
  split; [apply render_multiple_to_string_items; assumption|].
  split.
  - rewrite (@combine_items _ _ toBlockFunc _ _ E Hi), logged_bind.
    fold strs blocks. destruct (nonempty strs); [|simpl; rewrite app_nil_r; reflexivity].
    destruct (toBlockFunc strs) as [[b|e] l]; simpl; rewrite ?app_nil_r; reflexivity.
  - change (render (Ast.Paragraph tokens))
      with (render_multiple_to_string_and_combine render tokens
              (fun s => ret (text_block s))).
    rewrite (@combine_items _ _ _ _ _ E Hi). fold strs blocks.
    destruct (nonempty strs); simpl; rewrite ?app_nil_r; reflexivity.
Qed.

(** A paragraph with an inline image before its text. *)
Lemma merge_step_witness :
  render_multiple render [Ast.Image "u.png" "" [Ast.RawText "pic"]; Ast.RawText "tail"]
    = (Ok [VDict [ ("type", VClass ImageBlock); ("display_source", VStr "u.png");
                   ("source", VStr "u.png"); ("caption", VStr "pic") ];
           VStr "tail"], []) /\
  render (Ast.Paragraph [Ast.Image "u.png" "" [Ast.RawText "pic"]; Ast.RawText "tail"])
    = (Ok (VList [text_block "tail";
                  VDict [ ("type", VClass ImageBlock); ("display_source", VStr "u.png");
                          ("source", VStr "u.png"); ("caption", VStr "pic") ]]), []).
Proof.
  split; [reflexivity|].
  exact (proj2 (proj2 (merge_step
    [Ast.Image "u.png" "" [Ast.RawText "pic"]; Ast.RawText "tail"]
    (fun s => ret (text_block s)) eq_refl))).
Defined.

(** ** Table cells and links *)

(** C9. A table cell renders to the concatenated string of its children
    alone: the blocks among the rendered children that are not strings are
    left out, with one diagnostic logged when there are any, and the call
    returns. *)
Theorem table_cell_text_only (children : list token) (rendered : list value)
    (log : list string) :
  render_multiple render children = (Ok rendered, log) ->
  render (Ast.TableCell children) =
    (Ok (VStr (merged_text rendered)),
     log ++ match non_string_blocks rendered with
            | [] => []
            | _ :: _ => [table_cell_message]
            end).
Proof.
  intros E.
  pose proof (render_multiple_items (render_all_items children) E) as Hi.
  change (render (Ast.TableCell children)) with (render_table_cell render children).
  unfold render_table_cell.
  rewrite (bind_step _ (render_multiple_to_string_items _ _ E Hi)).
  destruct (non_string_blocks rendered); simpl; rewrite ?app_nil_r; reflexivity.
Qed.

(** A cell with a text and an image. *)
Lemma table_cell_text_only_witness :
  render (Ast.TableCell [Ast.RawText "36"; Ast.Image "s.png" "t" []]) =
    (Ok (VStr "36"), [table_cell_message]).
Proof.
  exact (table_cell_text_only
           [Ast.RawText "36"; Ast.Image "s.png" "t" []] eq_refl).
Defined.

(** C10. A link renders to a list that begins with the string
    [[s](target)], also when the string [s] of its children is empty,
    followed by the blocks that are left; the handlers of strong, emphasis,
    inline code, strikethrough and escape sequences give no string at all
    when [s] is empty. *)
Theorem link_keeps_empty_text (tgt : string) (children : list token)
    (rendered : list value) (log : list string) :
  render_multiple render children = (Ok rendered, log) ->
  let s := merged_text rendered in
  let blocks := non_string_blocks rendered in
  render (Ast.Link tgt children) =
    (Ok (VList (VStr ("[" ++ s ++ "](" ++ tgt ++ ")")%string :: blocks)), log) /\
  (s = EmptyString ->
   render (Ast.Link tgt children) =
     (Ok (VList (VStr ("[](" ++ tgt ++ ")")%string :: blocks)), log) /\
   render (Ast.Strong children) = (Ok (VList blocks), log) /\
   render (Ast.Emphasis children) = (Ok (VList blocks), log) /\
   render (Ast.InlineCode children) = (Ok (VList blocks), log) /\
   render (Ast.Strikethrough children) = (Ok (VList blocks), log) /\
   render (Ast.EscapeSequence children) = (Ok (VList blocks), log)).
Proof.
  intros E s blocks.
  pose proof (render_multiple_items (render_all_items children) E) as Hi.
  assert (HL : render (Ast.Link tgt children) =
    (Ok (VList (VStr ("[" ++ s ++ "](" ++ tgt ++ ")")%string :: blocks)), log)).
  { change (render (Ast.Link tgt children)) with (render_link render tgt children).
    unfold render_link.
    rewrite (bind_step _ (render_multiple_to_string_items _ _ E Hi)).
    simpl. rewrite app_nil_r. reflexivity. }
  split; [exact HL|].
  intros Hs.
  assert (HC : forall f, render_multiple_to_string_and_combine render children f
                         = (Ok (VList blocks), log)).
  { intros f. rewrite (@combine_items _ _ f _ _ E Hi). fold s. rewrite Hs. reflexivity. }
  repeat split; try apply HC.
  rewrite HL, Hs. reflexivity.
Qed.

(** A link and a strong span without children. *)
Lemma link_keeps_empty_text_witness :
  render (Ast.Link "http://x" []) = (Ok (VList [VStr "[](http://x)"]), []) /\
  render (Ast.Strong []) = (Ok (VList []), []).
Proof.
  pose proof (link_keeps_empty_text "http://x" [] eq_refl) as H.
  split; [exact (proj1 H) | exact (proj1 (proj2 (proj2 H eq_refl)))].
Defined.

(** ** Headings *)

(** C6. A heading of level 1, 2 or 3 renders to a Header, Subheader or
    Subsubheader block; a heading of level 4 to 6 renders to a Subsubheader
    block, as a heading of level 3 with the same children does, after one
    diagnostic, and raises nothing of its own. (The block is there when the
    heading has a text, as in the merge step.) *)
Theorem heading_clamp (lvl : Z) (kind : notion_class) (children : list token)
    (rendered : list value) (log : list string) :
  heading_kind lvl = Some kind ->
  render_multiple render children = (Ok rendered, log) ->
  let strs := merged_text rendered in
  let blocks := non_string_blocks rendered in
  render (Ast.Heading lvl children) =
    (Ok (VList (if nonempty strs then heading_block kind strs :: blocks else blocks)),
     heading_diagnostic lvl ++ log) /\
  render (Ast.Heading lvl children) =
    (logged (heading_diagnostic lvl) ;;; render (Ast.Heading (Z.min lvl 3) children)) /\
  heading_kind (Z.min lvl 3) = Some kind.
Proof.
  intros Hk E strs blocks.
  pose proof (render_multiple_items (render_all_items children) E) as Hi.
  assert (Hl : lvl = 1 \/ lvl = 2 \/ lvl = 3 \/ lvl = 4 \/ lvl = 5 \/ lvl = 6).
  { destruct lvl as [|p|p]; try discriminate Hk.
    repeat (destruct p as [p|p|]; try discriminate Hk; auto 10). }
  assert (Hr : forall l, render (Ast.Heading l children) = render_heading render l children)
    by reflexivity.
  rewrite !Hr. unfold render_heading.
  destruct Hl as [-> | [-> | [-> | [-> | [-> | ->]]]]]; inversion Hk; subst kind;
    simpl;
    repeat rewrite (@combine_items _ _ _ _ _ E Hi); fold strs blocks;
    destruct (nonempty strs); simpl; rewrite ?app_nil_r; auto.
Qed.

(** A heading of level 5. *)
Lemma heading_clamp_witness :
  render (Ast.Heading 5 [Ast.RawText "deep"]) =
    (Ok (VList [heading_block SubsubheaderBlock "deep"]),
     ["h5 not supported in Notion.so, converting to h3"]) /\
  render (Ast.Heading 5 [Ast.RawText "deep"]) =
    (logged ["h5 not supported in Notion.so, converting to h3"] ;;;
     render (Ast.Heading 3 [Ast.RawText "deep"])).
Proof.
  pose proof (heading_clamp 5 [Ast.RawText "deep"] eq_refl eq_refl) as H.
  split; [exact (proj1 H) | exact (proj1 (proj2 H))].
Defined.

(** ** Code languages *)

Lemma re_match_prefix (lang s : string) :
  re_match_escape_I lang s = true <-> prefix_ignorecase lang s.
Proof.
  revert s. induction lang as [|p lang IH]; intros s; simpl.
  - split; [constructor | reflexivity].
  - destruct s as [|c s].
    + split; [discriminate | intros H; inversion H].
    + rewrite andb_true_iff. unfold eqb_ignorecase. rewrite Ascii.eqb_eq, IH.
      split.
      * intros [H1 H2]. constructor; assumption.
      * intros H. inversion H; subst. auto.
Qed.

Lemma next_matching_first (lang label default : string) (labels : list string) :
  first_label lang labels label ->
  next_matching (re_match_escape_I lang) labels default = label.
Proof.
  intros (before & after & -> & Hp & Hb).
  induction Hb as [|x before Hx _ IH]; simpl.
  - apply re_match_prefix in Hp. rewrite Hp. reflexivity.
  - destruct (re_match_escape_I lang x) eqn:E; [|exact IH].
    apply re_match_prefix in E. contradiction.
Qed.

Lemma next_matching_none (lang default : string) (labels : list string) :
  (forall label, In label labels -> ~ prefix_ignorecase lang label) ->
  next_matching (re_match_escape_I lang) labels default = default.
Proof.
  induction labels as [|x labels IH]; simpl; intros H; [reflexivity|].
  destruct (re_match_escape_I lang x) eqn:E.
  - apply re_match_prefix in E. exfalso. exact (H x (or_introl eq_refl) E).
  - apply IH. intros label Hin. apply H. right. exact Hin.
Qed.

Lemma first_label_or_none (lang : string) (labels : list string) :
  (exists label, first_label lang labels label) \/
  (forall label, In label labels -> ~ prefix_ignorecase lang label).
Proof.
  induction labels as [|x labels IH].
  - right. intros label [].
  - destruct (re_match_escape_I lang x) eqn:E.
    + left. exists x, [], labels. repeat split; [|constructor].
      apply re_match_prefix. exact E.
    + assert (Hx : ~ prefix_ignorecase lang x).
      { intros H. apply re_match_prefix in H. congruence. }
      destruct IH as [(label & before & after & -> & Hp & Hb)|Hn].
      * left. exists label, (x :: before), after. repeat split; auto.
      * right. intros label [<-|Hin]; auto.
Qed.

(** Every declared language falls under one of the three cases. *)
Lemma resolves_total (lang : string) : exists label diag, resolves lang label diag.
Proof.
  destruct lang as [|c lang].
  - exists "Plain Text"%string, []. constructor.
  - destruct (first_label_or_none (String c lang) notionSoLangs) as [[label H]|H].
    + exists label, []. apply resolves_first; [discriminate | exact H].
    + exists EmptyString, [language_diagnostic (String c lang)].
      apply resolves_fallback; [discriminate | exact H].
Qed.

Lemma label_nonempty (label : string) :
  In label notionSoLangs -> nonempty label = true.
Proof.
  assert (H : forallb nonempty notionSoLangs = true) by reflexivity.
  rewrite forallb_forall in H. apply H.
Qed.

Lemma match_language_resolves (lang label : string) (diag : list string) :
  resolves lang label diag -> match_language lang = (Ok label, diag).
Proof.
  intros H. destruct H as [|lang label Hl Hf|lang Hl Hn].
  - reflexivity.
  - unfold match_language. destruct lang as [|c lang]; [congruence|].
    cbn [nonempty]. rewrite (next_matching_first EmptyString Hf).
    rewrite label_nonempty; [reflexivity|].
    destruct Hf as (before & after & E & _). rewrite E.
    apply in_or_app. right. left. reflexivity.
  - unfold match_language. destruct lang as [|c lang]; [congruence|].
    cbn [nonempty]. rewrite (next_matching_none EmptyString _ Hn). reflexivity.
Qed.

(** C5. The label of a code block: "Plain Text" when no language is
    declared; otherwise the first label of the allow-list that the declared
    language is a prefix of, letter case ignored; otherwise no label, with
    one diagnostic logged. The code block carries the label. *)
Theorem code_language (lang label : string) (diag : list string)
    (children : list token) (rendered : list value) (log : list string) :
  resolves lang label diag ->
  render_multiple render children = (Ok rendered, log) ->
  let strs := merged_text rendered in
  let blocks := non_string_blocks rendered in
  match_language lang = (Ok label, diag) /\
  render (Ast.CodeBlock lang children) =
    (Ok (VList (if nonempty strs then code_block label strs :: blocks else blocks)),
     diag ++ log).
Proof.
  intros Hr E strs blocks.
  pose proof (render_multiple_items (render_all_items children) E) as Hi.
  pose proof (match_language_resolves Hr) as Hm.
  split; [exact Hm|].
  change (render (Ast.CodeBlock lang children))
    with (render_block_code render lang children).
  unfold render_block_code. rewrite (bind_step _ Hm).
  rewrite (@combine_items _ _ _ _ _ E Hi). fold strs blocks.
  destruct (nonempty strs); simpl; rewrite ?app_nil_r; reflexivity.
Qed.

Lemma py_is_Python : first_label "py" notionSoLangs "Python".
Proof.
  exists (firstn 48 notionSoLangs), (skipn 49 notionSoLangs).
  split; [reflexivity|]. split.
  - apply re_match_prefix. reflexivity.
  - apply Forall_forall. intros l Hl Hp. apply re_match_prefix in Hp.
    assert (H : forallb (fun l => negb (re_match_escape_I "py" l))
                  (firstn 48 notionSoLangs) = true) by reflexivity.
    rewrite forallb_forall in H. specialize (H l Hl). rewrite Hp in H. discriminate.
Qed.

(** A fence tagged [py]. *)
Lemma code_language_witness :
  match_language "py" = (Ok "Python"%string, []) /\
  render (Ast.CodeBlock "py" [Ast.RawText "x = 1"]) =
    (Ok (VList [code_block "Python" "x = 1"]), []).
Proof.
  exact (code_language [Ast.RawText "x = 1"]
           (resolves_first (lang := "py") ltac:(discriminate) py_is_Python) eq_refl).
Defined.

(** ** Lists and list items *)

Lemma is_digit_digits (c : ascii) : is_digit c = true <-> In c digits.
Proof.
  split.
  - destruct c as [[] [] [] [] [] [] [] []]; intros H; try discriminate H;
      simpl; tauto.
  - intros H. simpl in H.
    repeat (destruct H as [<-|H]; [reflexivity|]). destruct H.
Qed.

Lemma re_match_digit_begins (ldr : string) :
  re_match_digit ldr = true <-> begins_with_digit ldr.
Proof.
  unfold begins_with_digit. destruct ldr as [|c rest]; simpl.
  - split; [discriminate | intros (d & r & _ & H); discriminate H].
  - rewrite is_digit_digits. split.
    + intros H. exists c, rest. auto.
    + intros (d & r & Hd & H). inversion H; subst. exact Hd.
Qed.

Lemma comprehension_pure (A B : Type) (cond : A -> M bool) (elem : A -> M B)
    (c : A -> bool) (e : A -> B) (l : list A) :
  Forall (fun x => cond x = (Ok (c x), []) /\
                   (c x = true -> elem x = (Ok (e x), []))) l ->
  comprehension cond elem l = (Ok (map e (filter c l)), []).
Proof.
  induction 1 as [|x l [Hc He] _ IH]; [reflexivity|].
  change (comprehension cond elem (x :: l))
    with (b <- cond x ;;
          if b then y <- elem x ;; ys <- comprehension cond elem l ;; ret (y :: ys)
          else comprehension cond elem l).
  rewrite Hc, bind_pure. cbn [filter]. destruct (c x).
  - rewrite (He eq_refl), IH. reflexivity.
  - exact IH.
Qed.

Lemma block_type (b : value) :
  is_block b = true ->
  exists ty, subscript b "type" = (Ok ty, []) /\
             is_TextBlock ty = is_text_block b /\
             (is_text_block b = true ->
              subscript b "title" = (Ok (VStr (text_of b)), [])).
Proof.
  destruct b as [s|c|vs|d]; try discriminate.
  unfold is_block, subscript, getitem, is_text_block, text_of, is_text_block.
  destruct (lookup d "type") as [[| cl | |]|]; try discriminate.
  intros H. exists (VClass cl). repeat split.
  destruct cl; try discriminate.
  destruct (lookup d "title") as [[t| | |]|]; try discriminate. reflexivity.
Qed.

Lemma join_titles (rendered : list value) :
  join (map (fun b => VStr (text_of b)) (filter is_text_block rendered)) =
    (Ok (text_titles rendered), []).
Proof.
  induction rendered as [|v r IH]; [reflexivity|].
  cbn [filter text_titles]. destruct (is_text_block v); [|exact IH].
  cbn [map join]. rewrite IH. reflexivity.
Qed.

Lemma dict_items_blocks (rendered : list value) :
  forallb is_item rendered = true ->
  forallb isinstance_dict rendered = true ->
  Forall (fun b => is_block b = true) rendered.
Proof.
  rewrite !forallb_forall. intros Hi Hd. apply Forall_forall. intros b Hb.
  specialize (Hi b Hb). specialize (Hd b Hb).
  destruct b; try discriminate. exact Hi.
Qed.

Lemma render_list_item_block (a : attrs) (header : option token)
    (children : list token) (v : value) (log : list string) :
  render (Token "ListItem" a header children) = (Ok v, log) ->
  exists numbered ttl ch, v = list_item_block numbered ttl ch.
Proof.
  intros H.
  change (render_list_item render (leader a) children = (Ok v, log)) in H.
  unfold render_list_item in H. do 4 bind_skip H. ret_inv H.
  eexists _, _, _. reflexivity.
Qed.

Lemma list_items_render_blocks (items : list token) (blocks : list value)
    (log : list string) :
  Forall (fun t => class_of t = "ListItem"%string) items ->
  mapM render items = (Ok blocks, log) ->
  Forall (fun b => exists numbered ttl ch, b = list_item_block numbered ttl ch) blocks.
Proof.
  intros Hc E. pose proof (mapM_Ok _ _ E) as HF. clear E.
  induction HF as [|t b ts bs [lg Hr] _ IH]; constructor.
  - inversion Hc as [|? ? Ht _]; subst. destruct t as [name a header children].
    simpl in Ht. subst name. eapply render_list_item_block. exact Hr.
  - apply IH. inversion Hc; assumption.
Qed.

Lemma block_token_dicts (t : token) (v : value) (log : list string) :
  block_token t = true ->
  render t = (Ok v, log) ->
  forallb isinstance_dict (flatten_value v) = true.
Proof.
  destruct t as [name a header children]. intros Hb H.
  unfold block_token in Hb. apply orb_true_iff in Hb. destruct Hb as [Hb|Hb].
  - apply existsb_exists in Hb. destruct Hb as (k & Hin & Hk).
    apply String.eqb_eq in Hk. subst k. simpl in Hin.
    pose proof (render_all_items children) as HF.
    destruct Hin as [<-|[<-|[<-|[<-|[<-|[<-|[<-|[]]]]]]]].
    + (* Heading *)
      change (render_heading render (level a) children = (Ok v, log)) in H.
      unfold render_heading in H. bind_inv H E.
      eapply combine_dicts; [exact HF | | exact H].
      intros s0 b0 l0 Ef. bind_inv Ef Ei. ret_inv Ef.
      match goal with c : notion_class |- _ => destruct c; reflexivity end.
    + (* Paragraph *)
      eapply combine_dicts; [exact HF | | exact H].
      intros s0 b0 l0 Ef. ret_inv Ef. reflexivity.
    + (* Quote *)
      eapply combine_dicts; [exact HF | | exact H].
      intros s0 b0 l0 Ef. ret_inv Ef. reflexivity.
    + (* CodeBlock *)
      change (render_block_code render (language a) children = (Ok v, log)) in H.
      unfold render_block_code in H. bind_inv H E.
      eapply combine_dicts; [exact HF | | exact H].
      intros s0 b0 l0 Ef. ret_inv Ef. reflexivity.
    + (* ThematicBreak *)
      ret_inv H. reflexivity.
    + (* ListItem *)
      destruct (render_list_item_block _ _ _ H) as (n & ttl & ch & ->). reflexivity.
    + (* Table *)
      change (render_table render header children = (Ok v, log)) in H.
      unfold render_table in H. do 3 bind_skip H. ret_inv H. reflexivity.
  - apply andb_true_iff in Hb. destruct Hb as [Hn Hc].
    apply String.eqb_eq in Hn. subst name.
    change (render_list render children = (Ok v, log)) in H.
    unfold render_list, render_multiple in H.
    bind_inv H E. bind_inv E Em. ret_inv E. ret_inv H.
    assert (Hi : Forall (fun t => class_of t = "ListItem"%string) children).
    { apply Forall_forall. intros c Hin. rewrite forallb_forall in Hc.
      apply String.eqb_eq. auto. }
    pose proof (list_items_render_blocks Hi Em) as Hl.
    assert (Hd : forallb isinstance_dict a1 = true).
    { apply forallb_forall. intros b Hin. rewrite Forall_forall in Hl.
      destruct (Hl b Hin) as (n & ttl & ch & ->). reflexivity. }
    assert (Hit : forallb is_item a1 = true).
    { apply forallb_forall. intros b Hin. rewrite Forall_forall in Hl.
      destruct (Hl b Hin) as (n & ttl & ch & ->). destruct n; reflexivity. }
    change (forallb isinstance_dict (flatten (flatten a1)) = true).
    rewrite !(items_flatten _ Hit). exact Hd.
Qed.

(** The children that the parser gives a list item are block tokens, and
    block tokens render to block descriptors alone. *)
Lemma block_children_dicts (children : list token) (rendered : list value)
    (log : list string) :
  forallb block_token children = true ->
  render_multiple render children = (Ok rendered, log) ->
  forallb isinstance_dict rendered = true.
Proof.
  intros Hb H. unfold render_multiple in H. bind_inv H E. ret_inv H.
  apply mapM_Ok in E. unfold flatten.
  induction E as [|t v ts vs [lg' Hv] _ IH]; [reflexivity|].
  simpl in Hb. apply andb_true_iff in Hb. destruct Hb as [Ht Hts].
  cbn [flat_map]. rewrite forallb_app, (block_token_dicts _ Ht Hv). simpl. auto.
Qed.

(** C4. A list item whose rendered children are block descriptors renders
    to one block descriptor: numbered when the leader begins with a digit
    and bulleted otherwise; its title is the titles of the Text blocks among
    the rendered children, concatenated in encounter order; its children are
    the other rendered children, in their original order. *)
Theorem list_item_descriptor (ldr : string) (children : list token)
    (rendered : list value) (log : list string) :
  render_multiple render children = (Ok rendered, log) ->
  forallb isinstance_dict rendered = true ->
  render (Ast.ListItem ldr children) =
    (Ok (list_item_block (re_match_digit ldr) (text_titles rendered)
           (non_text_blocks rendered)), log) /\
  (re_match_digit ldr = true <-> begins_with_digit ldr).
Proof.
  intros E Hd. split; [|apply re_match_digit_begins].
  pose proof (render_multiple_items (render_all_items children) E) as Hi.
  pose proof (dict_items_blocks _ Hi Hd) as Hb.
  change (render (Ast.ListItem ldr children))
    with (render_list_item render ldr children).
  unfold render_list_item. rewrite (bind_step _ E).
  rewrite (@comprehension_pure _ _ _ _
             (fun b => negb (is_text_block b)) (fun b => b)).
  2:{ eapply Forall_impl; [|exact Hb]. intros b H.
      destruct (block_type b H) as (ty & -> & <- & _).
      rewrite bind_pure. auto. }
  rewrite bind_pure.
  rewrite (@comprehension_pure _ _ _ _
             is_text_block (fun b => VStr (text_of b))).
  2:{ eapply Forall_impl; [|exact Hb]. intros b H.
      destruct (block_type b H) as (ty & -> & Hty & Ht).
      rewrite bind_pure, Hty. split; [reflexivity|]. exact Ht. }
  rewrite bind_pure, join_titles, bind_pure, map_id.
  simpl. rewrite app_nil_r. reflexivity.
Qed.

(** A numbered item with a paragraph and a nested list. *)
Lemma list_item_descriptor_witness :
  render (Ast.ListItem "1." [Ast.Paragraph [Ast.RawText "a"];
                             Ast.List [Ast.ListItem "-" [Ast.Paragraph [Ast.RawText "n"]]]])
    = (Ok (list_item_block true "a" [list_item_block false "n" []]), []).
Proof.
  exact (proj1 (list_item_descriptor "1."
    [Ast.Paragraph [Ast.RawText "a"];
     Ast.List [Ast.ListItem "-" [Ast.Paragraph [Ast.RawText "n"]]]]
    eq_refl eq_refl)).
Defined.

(** C7. A list gives no block of its own: when its children are list
    items that render to [blocks], the list renders to exactly these
    blocks, one list-item descriptor for each item, as siblings. *)
Theorem list_is_transparent (items : list token) (blocks : list value)
    (log : list string) :
  Forall (fun t => class_of t = "ListItem"%string) items ->
  mapM render items = (Ok blocks, log) ->
  render (Ast.List items) = (Ok (VList blocks), log) /\
  length blocks = length items /\
  Forall (fun b => exists numbered ttl ch, b = list_item_block numbered ttl ch) blocks.
Proof.
  intros Hc E.
  pose proof (mapM_Ok _ _ E) as HF.
  pose proof (list_items_render_blocks Hc E) as Hb.
  split; [|split; [symmetry; eapply Forall2_length; exact HF | exact Hb]].
  change (render (Ast.List items)) with (render_list render items).
  unfold render_list, render_multiple. rewrite (bind_step _ E).
  simpl. rewrite !app_nil_r. do 3 f_equal.
  apply items_flatten. apply forallb_forall. intros b Hin.
  rewrite Forall_forall in Hb. destruct (Hb b Hin) as (n & ttl & ch & ->).
  destruct n; reflexivity.
Qed.

(** A bulleted list with three items. *)
Lemma list_is_transparent_witness :
  render (Ast.List [Ast.ListItem "-" [Ast.Paragraph [Ast.RawText "a"]];
                    Ast.ListItem "-" [Ast.Paragraph [Ast.RawText "b"]];
                    Ast.ListItem "-" [Ast.Paragraph [Ast.RawText "c"]]])
    = (Ok (VList [list_item_block false "a" []; list_item_block false "b" [];
                  list_item_block false "c" []]), []).
Proof.
  exact (proj1 (list_is_transparent
    (items := [Ast.ListItem "-" [Ast.Paragraph [Ast.RawText "a"]];
               Ast.ListItem "-" [Ast.Paragraph [Ast.RawText "b"]];
               Ast.ListItem "-" [Ast.Paragraph [Ast.RawText "c"]]])
    ltac:(repeat constructor) eq_refl)).
Defined.

(** ** Inline spans in a paragraph *)

Lemma append_empty_r (s : string) : (s ++ "")%string = s.
Proof. induction s; simpl; congruence. Qed.

Lemma append_assoc (a b c : string) : ((a ++ b) ++ c)%string = (a ++ b ++ c)%string.
Proof. induction a; simpl; congruence. Qed.

Lemma nonempty_append (a b c : string) :
  nonempty b = true -> nonempty (a ++ b ++ c) = true.
Proof. destruct a; [destruct b; [discriminate|]|]; reflexivity. Qed.

Lemma nonempty_iff (s : string) : nonempty s = true <-> s <> EmptyString.
Proof. destruct s; simpl; split; congruence. Qed.

Lemma merged_text_app (a b : list value) :
  merged_text (a ++ b) = (merged_text a ++ merged_text b)%string.
Proof.
  induction a as [|v a IH]; simpl; [reflexivity|].
  rewrite IH, append_assoc. reflexivity.
Qed.

Lemma non_string_blocks_text (l : list value) :
  merged_text (non_string_blocks l) = EmptyString.
Proof.
  unfold non_string_blocks. induction l as [|v l IH]; [reflexivity|].
  cbn [filter]. destruct (isinstance_dict v && negb (is_text_block v)) eqn:E;
    [|exact IH].
  cbn [merged_text]. rewrite IH.
  destruct v as [s|c|vs|d]; try discriminate E.
  cbn [isinstance_dict andb] in E. apply negb_true_iff in E.
  unfold text_of. rewrite E. reflexivity.
Qed.

Lemma render_span (k : span) (children : list token) (rendered : list value)
    (log : list string) :
  render_multiple render children = (Ok rendered, log) ->
  nonempty (merged_text rendered) = true ->
  render (span_token k children) =
    (Ok (VList (VStr (wrapped k (merged_text rendered)) :: non_string_blocks rendered)),
     log).
Proof.
  intros E Hs.
  pose proof (render_multiple_items (render_all_items children) E) as Hi.
  destruct k;
    match goal with
    | |- render (span_token ?k0 ?cs) = _ =>
        change (render (span_token k0 cs))
          with (render_multiple_to_string_and_combine render cs
                  (fun s => ret (VStr (wrapped k0 s))))
    end;
    rewrite (@combine_items _ _ _ _ _ E Hi), Hs; simpl; rewrite app_nil_r;
    reflexivity.
Qed.

Lemma contains_prepend (p a w : string) : contains a w -> contains (p ++ a) w.
Proof.
  intros (x & y & ->). exists (p ++ x)%string, y. apply eq_sym, append_assoc.
Qed.

Lemma contains_append (a q w : string) : contains a w -> contains (a ++ q) w.
Proof.
  intros (x & y & ->). exists x, (y ++ q)%string.
  rewrite !append_assoc. reflexivity.
Qed.

Lemma contains_trans (a b c : string) : contains a b -> contains b c -> contains a c.
Proof.
  intros (x & y & ->) H. apply contains_prepend, contains_append. exact H.
Qed.

Lemma contains_nonempty (a w : string) :
  contains a w -> nonempty w = true -> nonempty a = true.
Proof. intros (x & y & ->). apply nonempty_append. Qed.

Lemma merged_text_list (l : list value) :
  forallb is_item l = true -> merged_text (flatten_value (VList l)) = merged_text l.
Proof.
  intros H. change (flatten_value (VList l)) with (flatten l).
  rewrite (items_flatten _ H). reflexivity.
Qed.

Lemma child_shows (ts : list token) (vs : list value) (c : token) (w : string) :
  Forall2 (fun t v => exists lg, render t = (Ok v, lg)) ts vs ->
  In c ts ->
  (forall vc lc, render c = (Ok vc, lc) -> shows vc w) ->
  contains (merged_text (flatten vs)) w.
Proof.
  intros HF Hin Hc. unfold flatten.
  induction HF as [|t v ts vs [lg Hv] _ IH]; [destruct Hin|].
  cbn [flat_map]. rewrite merged_text_app. destruct Hin as [->|Hin].
  - apply contains_append. exact (Hc _ _ Hv).
  - apply contains_prepend. exact (IH Hin).
Qed.

Lemma children_show (tokens : list token) (rendered : list value)
    (log : list string) (c : token) (w : string) :
  render_multiple render tokens = (Ok rendered, log) ->
  In c tokens ->
  (forall vc lc, render c = (Ok vc, lc) -> shows vc w) ->
  contains (merged_text rendered) w.
Proof.
  intros H Hin Hc. unfold render_multiple in H. bind_inv H E. ret_inv H.
  eapply child_shows; [eapply mapM_Ok; exact E | exact Hin | exact Hc].
Qed.

Lemma text_first_shows (t : string) (blocks : list value) (w : string)
    (rendered : list value) :
  forallb is_item rendered = true ->
  blocks = non_string_blocks rendered ->
  contains t w ->
  shows (VList (VStr t :: blocks)) w.
Proof.
  intros Hi -> Ht. unfold shows. rewrite merged_text_list.
  - cbn [merged_text text_of]. rewrite non_string_blocks_text.
    apply contains_append. exact Ht.
  - simpl. apply non_string_blocks_items. exact Hi.
Qed.

Lemma combine_shows (children : list token) (f : string -> M value)
    (v : value) (log : list string) (c : token) (w : string) :
  render_multiple_to_string_and_combine render children f = (Ok v, log) ->
  In c children ->
  (forall vc lc, render c = (Ok vc, lc) -> shows vc w) ->
  nonempty w = true ->
  (forall s, exists t, f s = ret (VStr t) /\ contains t s) ->
  shows v w.
Proof.
  intros H Hin Hc Hw Hf. unfold render_multiple_to_string_and_combine in H.
  bind_inv H E. destruct a as [strs blocks].
  destruct (render_multiple_to_string_Ok (render_all_items children) E)
    as (rendered & Er & Hi & -> & ->).
  pose proof (@children_show _ _ _ _ _ Er Hin Hc) as Hs.
  rewrite (contains_nonempty Hs Hw) in H.
  destruct (Hf (merged_text rendered)) as (t & Et & Ht).
  rewrite Et, !bind_ret_l in H. ret_inv H.
  eapply text_first_shows; [exact Hi | reflexivity | ].
  eapply contains_trans; eassumption.
Qed.

Lemma within_shows (c u : token) (w : string) :
  within c u ->
  nonempty w = true ->
  (forall vu lu, render u = (Ok vu, lu) -> shows vu w) ->
  forall vc lc, render c = (Ok vc, lc) -> shows vc w.
Proof.
  induction 1 as [t|name a header children h c u Hreg Hh Hin _ IH]; intros Hw Hu.
  - exact Hu.
  - intros v log H. rewrite render_unfold, Hreg in H.
    specialize (IH Hw Hu).
    destruct h; try discriminate Hh; simpl in H.
    + eapply combine_shows; [exact H | exact Hin | exact IH | exact Hw | ].
      intros s. eexists. split; [reflexivity|]. exists "**"%string, "**"%string. reflexivity.
    + eapply combine_shows; [exact H | exact Hin | exact IH | exact Hw | ].
      intros s. eexists. split; [reflexivity|]. exists "*"%string, "*"%string. reflexivity.
    + eapply combine_shows; [exact H | exact Hin | exact IH | exact Hw | ].
      intros s. eexists. split; [reflexivity|]. exists "`"%string, "`"%string. reflexivity.
    + eapply combine_shows; [exact H | exact Hin | exact IH | exact Hw | ].
      intros s. eexists. split; [reflexivity|]. exists "~"%string, "~"%string. reflexivity.
    + (* Link *)
      unfold render_link in H. bind_inv H E.
      match goal with p : (string * list value)%type |- _ => destruct p as [strs blocks] end.
      ret_inv H.
      destruct (render_multiple_to_string_Ok (render_all_items children) E)
        as (rendered & Er & Hi & -> & ->).
      eapply text_first_shows; [exact Hi | reflexivity | ].
      eapply contains_trans; [|exact (@children_show _ _ _ _ _ Er Hin IH)].
      exists "["%string, ("](" ++ target a ++ ")")%string. reflexivity.
    + (* EscapeSequence *)
      eapply combine_shows; [exact H | exact Hin | exact IH | exact Hw | ].
      intros s. eexists. split; [reflexivity|]. exists "\"%string, ""%string.
      rewrite append_empty_r. reflexivity.
Qed.

Lemma span_shows (k : span) (children : list token) (s : string)
    (blocks : list value) (lc : list string) :
  render_multiple_to_string render children = (Ok (s, blocks), lc) ->
  s <> EmptyString ->
  forall v l, render (span_token k children) = (Ok v, l) -> shows v (wrapped k s).
Proof.
  intros Ec Hs v l H.
  destruct (render_multiple_to_string_Ok (render_all_items children) Ec)
    as (rc & Erc & Hic & -> & ->).
  apply nonempty_iff in Hs.
  rewrite (@render_span k _ _ _ Erc Hs) in H. ret_inv H.
  eapply text_first_shows; [exact Hic | reflexivity | ].
  exists ""%string, ""%string. simpl. rewrite append_empty_r. reflexivity.
Qed.

(** C8. A paragraph with a strong, emphasis, inline code or strikethrough
    span whose children render to a non-empty string [s] renders to a Text
    block whose title contains [s] between the sigils of the span. The span
    is a child of the paragraph or sits under further spans, escape
    sequences and links of it. *)
Theorem sigils_survive (k : span) (tokens : list token) (c : token)
    (children : list token) (s : string) (blocks rendered : list value)
    (lc log : list string) :
  In c tokens ->
  within c (span_token k children) ->
  render_multiple_to_string render children = (Ok (s, blocks), lc) ->
  s <> EmptyString ->
  render_multiple render tokens = (Ok rendered, log) ->
  render (Ast.Paragraph tokens) =
    (Ok (VList (text_block (merged_text rendered) :: non_string_blocks rendered)),
     log) /\
  contains (merged_text rendered) (wrapped k s).
Proof.
  intros Hin Hw Ec Hs E.
  assert (Hne : nonempty (wrapped k s) = true) by (destruct k; reflexivity).
  assert (Hc : contains (merged_text rendered) (wrapped k s)).
  { eapply children_show; [exact E | exact Hin | ].
    eapply within_shows; [exact Hw | exact Hne | ].
    eapply span_shows; eassumption. }
  split; [|exact Hc].
  pose proof (render_multiple_items (render_all_items tokens) E) as Hi.
  change (render (Ast.Paragraph tokens))
    with (render_multiple_to_string_and_combine render tokens
            (fun s => ret (text_block s))).
  rewrite (@combine_items _ _ _ _ _ E Hi), (contains_nonempty Hc Hne).
  simpl. rewrite app_nil_r. reflexivity.
Qed.

(** A strong span between two texts, and an emphasis span inside it. *)
Lemma sigils_survive_witness :
  render (Ast.Paragraph
            [Ast.RawText "a ";
             Ast.Strong [Ast.RawText "bold "; Ast.Emphasis [Ast.RawText "it"]];
             Ast.RawText " z"])
    = (Ok (VList [text_block "a **bold *it*** z"]), []) /\
  contains "a **bold *it*** z" "**bold *it***" /\
  contains "a **bold *it*** z" "*it*".
Proof.
  pose proof (@sigils_survive SStrong
    [Ast.RawText "a ";
     Ast.Strong [Ast.RawText "bold "; Ast.Emphasis [Ast.RawText "it"]];
     Ast.RawText " z"]
    (Ast.Strong [Ast.RawText "bold "; Ast.Emphasis [Ast.RawText "it"]])
    [Ast.RawText "bold "; Ast.Emphasis [Ast.RawText "it"]]
    "bold *it*" [] [VStr "a "; VStr "**bold *it***"; VStr " z"] [] []
    (or_intror (or_introl eq_refl))
    (within_self _)
    eq_refl ltac:(discriminate) eq_refl) as H1.
  pose proof (@sigils_survive SEmphasis
    [Ast.RawText "a ";
     Ast.Strong [Ast.RawText "bold "; Ast.Emphasis [Ast.RawText "it"]];
     Ast.RawText " z"]
    (Ast.Strong [Ast.RawText "bold "; Ast.Emphasis [Ast.RawText "it"]])
    [Ast.RawText "it"]
    "it" [] [VStr "a "; VStr "**bold *it***"; VStr " z"] [] []
    (or_intror (or_introl eq_refl))
    (@within_child "Strong" no_attrs None
       [Ast.RawText "bold "; Ast.Emphasis [Ast.RawText "it"]] HStrong
       (Ast.Emphasis [Ast.RawText "it"]) (Ast.Emphasis [Ast.RawText "it"])
       eq_refl eq_refl (or_intror (or_introl eq_refl)) (within_self _))
    eq_refl ltac:(discriminate) eq_refl) as H2.
  split; [exact (proj1 H1)|]. split; [exact (proj2 H1) | exact (proj2 H2)].
Defined.

(** ** Errors unwind the render call *)

Lemma bind_raises_after (A B : Type) (m : M A) (f : A -> M B) :
  (forall a, raises (f a)) -> raises (bind m f).
Proof.
  intros H. destruct m as [[a|e] l].
  - destruct (H a) as [e He]. exists e. unfold bind, outcome in *.
    destruct (f a) as [r l2]. simpl in *. exact He.
  - exists e. reflexivity.
Qed.

Lemma bind_raises_first (A B : Type) (m : M A) (f : A -> M B) :
  raises m -> raises (bind m f).
Proof. apply bind_raises. Qed.

Lemma mapM_raises (A B : Type) (f : A -> M B) (l : list A) (c : A) :
  In c l -> raises (f c) -> raises (mapM f l).
Proof.
  induction l as [|x l IH]; intros Hin Hc; [destruct Hin|].
  change (mapM f (x :: l)) with (y <- f x ;; ys <- mapM f l ;; ret (y :: ys)).
  destruct Hin as [->|Hin].
  - apply bind_raises_first. exact Hc.
  - apply bind_raises_after. intros y. apply bind_raises_first. auto.
Qed.

Lemma call_raises (r : token -> M value) (h : handler) (a : attrs)
    (header : option token) (children : list token) :
  renders_children h a = true ->
  raises (mapM r children) ->
  raises (call r h a header children).
Proof.
  intros Hh Hm.
  assert (Hr : raises (render_multiple r children))
    by (apply bind_raises_first; exact Hm).
  assert (Hs : raises (render_multiple_to_string r children))
    by (apply bind_raises_first; exact Hr).
  assert (Hc : forall f, raises (render_multiple_to_string_and_combine r children f))
    by (intros f; apply bind_raises_first; exact Hs).
  destruct h; simpl in Hh; try discriminate Hh; simpl; try apply Hc;
    try (apply bind_raises_first; assumption).
  - (* BlockCode *) apply bind_raises_after. intros lang. apply Hc.
  - (* Heading *) apply bind_raises_after. intros lvl. apply Hc.
  - (* Table *) apply bind_raises_after. intros row.
    apply bind_raises_first. exact Hm.
  - (* Image *) apply bind_raises_first.
    destruct (nonempty (title a)); [discriminate Hh|].
    apply bind_raises_first. exact Hs.
Qed.

Lemma reaches_raises (t u : token) :
  reaches t u -> raises (render u) -> raises (render t).
Proof.
  induction 1 as [t|name a header children h c u Hreg Hh Hin _ IH
                  |name a c children u Hreg _ IH]; intros Hu.
  - exact Hu.
  - rewrite render_unfold, Hreg. apply call_raises; [exact Hh|].
    eapply mapM_raises; [exact Hin | exact (IH Hu)].
  - rewrite render_unfold, Hreg. simpl. unfold render_table.
    apply bind_raises_first. exact (IH Hu).
Qed.

(** C3. A token whose class has no handler in the dispatch table makes
    [render] raise, and the error unwinds every render call that reaches
    the token: such a call returns an error and no value. *)
Theorem unregistered_kind_is_fatal (t : token) (name : string) (a : attrs)
    (header : option token) (children : list token) :
  registered render_map name = None ->
  reaches t (Token name a header children) ->
  render (Token name a header children) = (Raise (KeyError name), []) /\
  exists e, outcome (render t) = Raise e.
Proof.
  intros Hreg Hreach.
  assert (Hu : render (Token name a header children) = (Raise (KeyError name), [])).
  { rewrite render_unfold, Hreg. reflexivity. }
  split; [exact Hu|].
  apply (reaches_raises Hreach). exists (KeyError name). rewrite Hu. reflexivity.
Qed.

(** A document whose second paragraph holds a token of the class
    [AutoLink], which the table does not name. *)
Lemma unregistered_kind_is_fatal_witness :
  render (Token "AutoLink" no_attrs None []) = (Raise (KeyError "AutoLink"), []) /\
  exists e,
    outcome (render (Ast.Document
               [Ast.Paragraph [Ast.RawText "fine"];
                Ast.Paragraph [Ast.Strong [Token "AutoLink" no_attrs None []]]]))
    = Raise e.
Proof.
  apply (@unregistered_kind_is_fatal
           (Ast.Document
              [Ast.Paragraph [Ast.RawText "fine"];
               Ast.Paragraph [Ast.Strong [Token "AutoLink" no_attrs None []]]])
           "AutoLink" no_attrs None []).
  - reflexivity.
  - eapply reaches_child with (h := HDocument); [reflexivity | reflexivity | | ].
    + right. left. reflexivity.
    + eapply reaches_child with (h := HParagraph); [reflexivity | reflexivity | | ].
      * left. reflexivity.
      * eapply reaches_child with (h := HStrong); [reflexivity | reflexivity | | ].
        -- left. reflexivity.
        -- apply reaches_self.
Defined.

(** ** Tables *)

Lemma render_table_cell_string (a : attrs) (header : option token)
    (children : list token) (v : value) (log : list string) :
  render (Token "TableCell" a header children) = (Ok v, log) ->
  exists s, v = VStr s.
Proof.
  intros H. change (render_table_cell render children = (Ok v, log)) in H.
  unfold render_table_cell in H. bind_inv H E.
  match goal with p : (string * list value)%type |- _ => destruct p as [s b] end.
  bind_skip H. ret_inv H. exists s. reflexivity.
Qed.

Lemma flatten_strings (l : list string) : flatten (map VStr l) = map VStr l.
Proof.
  apply items_flatten. apply forallb_forall. intros v Hv.
  apply in_map_iff in Hv. destruct Hv as (s & <- & _). reflexivity.
Qed.

Lemma render_table_row_strings (cells : list token) (l : list string)
    (log : list string) :
  mapM render cells = (Ok (map VStr l), log) ->
  render (Ast.TableRow cells) = (Ok (row_value l), log).
Proof.
  intros E. change (render (Ast.TableRow cells)) with (render_table_row render cells).
  unfold render_table_row, render_multiple. rewrite (bind_step _ E). simpl.
  rewrite flatten_strings, !app_nil_r. reflexivity.
Qed.

Lemma render_body_rows (body : list (list token)) (rs : list (list string))
    (log : list string) :
  mapM (fun cells => mapM render cells) body = (Ok (map (map VStr) rs), log) ->
  mapM render (map Ast.TableRow body) = (Ok (map row_value rs), log).
Proof.
  revert rs log. induction body as [|cells body IH]; intros rs log H.
  - ret_inv H. destruct rs; [reflexivity | discriminate].
  - change (mapM (fun cells => mapM render cells) (cells :: body))
      with (y <- mapM render cells ;;
            ys <- mapM (fun cells => mapM render cells) body ;; ret (y :: ys)) in H.
    bind_inv H Ec. bind_inv H Eb. ret_inv H.
    destruct rs as [|r rs]; [discriminate|].
    match goal with H : _ :: _ = map _ (_ :: _) |- _ => inversion H; subst end.
    change (mapM render (map Ast.TableRow (cells :: body)))
      with (y <- render (Ast.TableRow cells) ;;
            ys <- mapM render (map Ast.TableRow body) ;; ret (y :: ys)).
    rewrite (bind_step _ (render_table_row_strings _ _ Ec)).
    rewrite (bind_step _ (IH _ _ Eb)). simpl. rewrite !app_nil_r. reflexivity.
Qed.

(** C1, as the code has it. A table with a header row whose cells render
    to the strings [hs] and body rows whose cells render to the strings
    [rs] renders to one Table block: its schema has one text column for
    each header string, in header order; its rows are the body rows as
    arrays of strings, in order. The header row is not among the rows. *)
Theorem table_descriptor (hcells : list token) (body : list (list token))
    (hs : list string) (rs : list (list string)) (lh lb : list string) :
  mapM render hcells = (Ok (map VStr hs), lh) ->
  mapM (fun cells => mapM render cells) body = (Ok (map (map VStr) rs), lb) ->
  render (Ast.Table (Some (Ast.TableRow hcells)) (map Ast.TableRow body)) =
    (Ok (table_block rs hs), lh ++ lb) /\
  rows_of (table_block rs hs) = map row_value rs.
Proof.
  intros Eh Eb. split; [|reflexivity].
  change (render (Ast.Table (Some (Ast.TableRow hcells)) (map Ast.TableRow body)))
    with (render_table render (Some (Ast.TableRow hcells)) (map Ast.TableRow body)).
  unfold render_table.
  rewrite (bind_step _ (render_table_row_strings _ _ Eh)).
  rewrite (bind_step _ (render_body_rows _ _ Eb)).
  simpl. rewrite !app_nil_r, map_map. reflexivity.
Qed.

(** The table of the specification. *)
Lemma table_descriptor_witness :
  render example_table = (Ok (table_block [["Ada"; "36"]] ["Name"; "Age"]), []).
Proof.
  exact (proj1 (@table_descriptor
    [Ast.TableCell [Ast.RawText "Name"]; Ast.TableCell [Ast.RawText "Age"]]
    [[Ast.TableCell [Ast.RawText "Ada"]; Ast.TableCell [Ast.RawText "36"]]]
    ["Name"; "Age"] [["Ada"; "36"]] [] [] eq_refl eq_refl)).
Defined.

(** C1, as stated, fails on the table of the specification: the rows of
    the block are the data row alone; the header row is not their first
    row, nor any of them. *)
Lemma header_row_not_in_rows :
  render example_table = (Ok (table_block [["Ada"; "36"]] ["Name"; "Age"]), []) /\
  rows_of (table_block [["Ada"; "36"]] ["Name"; "Age"]) = [row_value ["Ada"; "36"]] /\
  hd_error (rows_of (table_block [["Ada"; "36"]] ["Name"; "Age"]))
    <> Some (row_value ["Name"; "Age"]) /\
  ~ In (row_value ["Name"; "Age"])
       (rows_of (table_block [["Ada"; "36"]] ["Name"; "Age"])).
Proof.
  split; [reflexivity|]. split; [reflexivity|]. split.
  - discriminate.
  - intros [H|[]]. discriminate H.
Qed.

(** * Further properties of the renderer *)

(** ** Flattening *)

Lemma flatten_value_no_list (v : value) :
  forallb (fun x => negb (isinstance_list x)) (flatten_value v) = true.
Proof.
  induction v as [s|c|l IH|d] using value_induction; try reflexivity.
  change (flatten_value (VList l)) with (flat_map flatten_value l).
  apply forallb_flat_map. exact IH.
Qed.

Lemma no_list_flatten (l : list value) :
  forallb (fun x => negb (isinstance_list x)) l = true -> flatten l = l.
Proof.
  unfold flatten. induction l as [|v l IH]; simpl; [reflexivity|].
  intros H. apply andb_prop in H. destruct H as [Hv Hl].
  rewrite (IH Hl). destruct v; try reflexivity. discriminate Hv.
Qed.

Lemma flatten_no_list (l : list value) :
  forallb (fun x => negb (isinstance_list x)) (flatten l) = true.
Proof.
  unfold flatten. apply forallb_flat_map. apply Forall_forall.
  intros v _. apply flatten_value_no_list.
Qed.

Lemma flatten_idempotent (l : list value) : flatten (flatten l) = flatten l.
Proof. apply no_list_flatten, flatten_no_list. Qed.

Lemma flatten_app (a b : list value) : flatten (a ++ b) = flatten a ++ flatten b.
Proof. apply flat_map_app. Qed.

(** X1. [flatten] expands lists to any depth: its result holds no list,
    flattening it again changes nothing, the pieces of a concatenation are
    flattened one after the other, and strings stay whole elements. *)
Theorem flatten_is_deep (a b : list value) (strs : list string) :
  forallb (fun x => negb (isinstance_list x)) (flatten a) = true /\
  flatten (flatten a) = flatten a /\
  flatten (a ++ VList b :: nil) = flatten a ++ flatten b /\
  flatten (map VStr strs) = map VStr strs.
Proof.
  split; [apply flatten_no_list|]. split; [apply flatten_idempotent|]. split.
  - rewrite flatten_app. unfold flatten at 2. simpl. rewrite app_nil_r. reflexivity.
  - apply flatten_strings.
Qed.

(** ** Sequences of siblings *)

Lemma bind_ret_r (A : Type) (m : M A) : bind m (fun a => ret a) = m.
Proof.
  destruct m as [[a|e] l]; simpl; [rewrite app_nil_r|]; reflexivity.
Qed.

Lemma bind_assoc (A B C : Type) (m : M A) (f : A -> M B) (g : B -> M C) :
  bind (bind m f) g = bind m (fun a => bind (f a) g).
Proof.
  destruct m as [[a|e] l1]; [|reflexivity].
  unfold bind at 2 3. destruct (f a) as [[b|e] l2]; simpl.
  - destruct (g b) as [r l3]. rewrite app_assoc. reflexivity.
  - reflexivity.
Qed.

Lemma bind_ext (A B : Type) (m : M A) (f g : A -> M B) :
  (forall a, f a = g a) -> bind m f = bind m g.
Proof.
  intros H. destruct m as [[a|e] l]; [|reflexivity]. simpl. rewrite H. reflexivity.
Qed.

Lemma mapM_cons (A B : Type) (f : A -> M B) (x : A) (l : list A) :
  mapM f (x :: l) = (y <- f x ;; ys <- mapM f l ;; ret (y :: ys)).
Proof. reflexivity. Qed.

Lemma mapM_concat (A B : Type) (f : A -> M B) (a b : list A) :
  mapM f (a ++ b) = (x <- mapM f a ;; y <- mapM f b ;; ret (x ++ y)).
Proof.
  induction a as [|t a IH].
  - simpl app. change (mapM f []) with (@ret (list B) []).
    rewrite bind_ret_l. symmetry. apply bind_ret_r.
  - change ((t :: a) ++ b) with (t :: (a ++ b)).
    rewrite !mapM_cons, bind_assoc. apply bind_ext. intros y.
    rewrite IH, !bind_assoc. apply bind_ext. intros ys.
    rewrite bind_ret_l, bind_assoc. apply bind_ext. intros zs.
    rewrite bind_ret_l. reflexivity.
Qed.

Lemma render_multiple_concat (r : token -> M value) (a b : list token) :
  render_multiple r (a ++ b) =
  (x <- render_multiple r a ;; y <- render_multiple r b ;; ret (x ++ y)).
Proof.
  unfold render_multiple. rewrite mapM_concat, !bind_assoc.
  apply bind_ext. intros x. rewrite bind_ret_l, !bind_assoc.
  apply bind_ext. intros y. rewrite !bind_ret_l, flatten_app. reflexivity.
Qed.

Lemma render_multiple_one (r : token -> M value) (t : token) :
  render_multiple r [t] = (v <- r t ;; ret (flatten_value v)).
Proof.
  unfold render_multiple. rewrite mapM_cons, bind_assoc.
  apply bind_ext. intros v. change (mapM r []) with (@ret (list value) []).
  rewrite !bind_ret_l. unfold flatten. simpl. rewrite app_nil_r. reflexivity.
Qed.

Lemma render_multiple_three (r : token -> M value) (a b c : list token) :
  render_multiple r (a ++ b ++ c) =
  (x <- render_multiple r a ;; y <- render_multiple r b ;;
   z <- render_multiple r c ;; ret (x ++ y ++ z)).
Proof.
  rewrite render_multiple_concat. apply bind_ext. intros x.
  rewrite render_multiple_concat, bind_assoc. apply bind_ext. intros y.
  rewrite bind_assoc. apply bind_ext. intros z. rewrite bind_ret_l. reflexivity.
Qed.

Lemma render_multiple_flat (r : token -> M value) (tokens : list token)
    (rendered : list value) (log : list string) :
  render_multiple r tokens = (Ok rendered, log) -> flatten rendered = rendered.
Proof.
  unfold render_multiple. intros H. bind_inv H E. ret_inv H.
  apply flatten_idempotent.
Qed.

(** X2. Rendering a sequence of siblings is rendering its parts one after
    the other: the results are concatenated, the records too, and the
    first error ends the call. *)
Theorem siblings_concatenate (a b : list token) :
  render_multiple render (a ++ b) =
    (x <- render_multiple render a ;;
     y <- render_multiple render b ;;
     ret (x ++ y)) /\
  render (Ast.Document (a ++ b)) =
    (x <- render_multiple render a ;;
     y <- render_multiple render b ;;
     ret (VList (x ++ y))).
Proof.
  split; [apply render_multiple_concat|].
  change (render (Ast.Document (a ++ b)))
    with (r <- render_multiple render (a ++ b) ;; ret (VList r)).
  rewrite render_multiple_concat, bind_assoc. apply bind_ext. intros x.
  rewrite bind_assoc. apply bind_ext. intros y. rewrite bind_ret_l. reflexivity.
Qed.

Lemma render_returns_children (name : string) (a : attrs) (header : option token)
    (items : list token) (h : handler) :
  registered render_map name = Some h ->
  returns_children h = true ->
  render_multiple render [Token name a header items] = render_multiple render items.
Proof.
  intros Hreg Hh. rewrite render_multiple_one, render_unfold, Hreg.
  assert (Hc : call render h a header items
               = (r <- render_multiple render items ;; ret (VList r)))
    by (destruct h; try discriminate Hh; reflexivity).
  rewrite Hc, bind_assoc.
  destruct (render_multiple render items) as [[r|e] l] eqn:E; [|reflexivity].
  rewrite (bind_step _ (eq_refl (Ok r, l))), bind_ret_l.
  change (flatten_value (VList r)) with (flatten r).
  rewrite (render_multiple_flat _ _ E). simpl. rewrite app_nil_r. reflexivity.
Qed.

(** X3. A list, a document or a table row among siblings is transparent:
    the siblings render as they would with its children in its place. *)
Theorem container_is_transparent (name : string) (a : attrs)
    (header : option token) (items before after : list token) (h : handler) :
  registered render_map name = Some h ->
  returns_children h = true ->
  render_multiple render (before ++ Token name a header items :: after) =
  render_multiple render (before ++ items ++ after).
Proof.
  intros Hreg Hh.
  change (before ++ Token name a header items :: after)
    with (before ++ [Token name a header items] ++ after).
  rewrite !render_multiple_three. apply bind_ext. intros x.
  rewrite (@render_returns_children name a header items h Hreg Hh). reflexivity.
Qed.

(** A nested list between two paragraphs of a document. *)
Lemma container_is_transparent_witness :
  render_multiple render
    ([Ast.Paragraph [Ast.RawText "a"]]
     ++ Ast.List [Ast.ListItem "-" [Ast.Paragraph [Ast.RawText "b"]]]
     :: [Ast.Paragraph [Ast.RawText "c"]])
  = render_multiple render
      ([Ast.Paragraph [Ast.RawText "a"]]
       ++ [Ast.ListItem "-" [Ast.Paragraph [Ast.RawText "b"]]]
       ++ [Ast.Paragraph [Ast.RawText "c"]]).
Proof.
  exact (@container_is_transparent "List" no_attrs None
           [Ast.ListItem "-" [Ast.Paragraph [Ast.RawText "b"]]]
           [Ast.Paragraph [Ast.RawText "a"]] [Ast.Paragraph [Ast.RawText "c"]]
           HList eq_refl eq_refl).
Defined.

(** ** Paragraphs under a merging parent *)

Lemma non_string_blocks_concat (a b : list value) :
  non_string_blocks (a ++ b) = non_string_blocks a ++ non_string_blocks b.
Proof. apply filter_app. Qed.

Lemma non_string_blocks_twice (l : list value) :
  non_string_blocks (non_string_blocks l) = non_string_blocks l.
Proof.
  unfold non_string_blocks. induction l as [|v l IH]; [reflexivity|].
  cbn [filter]. destruct (isinstance_dict v && negb (is_text_block v)) eqn:E;
    [|exact IH].
  cbn [filter]. rewrite E, IH. reflexivity.
Qed.

Lemma merged_text_empty_blocks (l : list value) :
  nonempty (merged_text l) = false -> merged_text l = EmptyString.
Proof. destruct (merged_text l); [reflexivity | discriminate]. Qed.

Lemma paragraph_items_text (c : list value) :
  merged_text (paragraph_items c) = merged_text c.
Proof.
  unfold paragraph_items. destruct (nonempty (merged_text c)) eqn:E.
  - cbn [merged_text]. rewrite non_string_blocks_text.
    change (text_of (text_block (merged_text c))) with (merged_text c).
    apply append_empty_r.
  - rewrite non_string_blocks_text. symmetry. apply merged_text_empty_blocks, E.
Qed.

Lemma paragraph_items_blocks (c : list value) :
  non_string_blocks (paragraph_items c) = non_string_blocks c.
Proof.
  unfold paragraph_items. destruct (nonempty (merged_text c)).
  - change (non_string_blocks (text_block (merged_text c) :: non_string_blocks c))
      with (non_string_blocks (non_string_blocks c)).
    apply non_string_blocks_twice.
  - apply non_string_blocks_twice.
Qed.

Lemma paragraph_items_are_items (c : list value) :
  forallb is_item c = true -> forallb is_item (paragraph_items c) = true.
Proof.
  intros H. unfold paragraph_items.
  destruct (nonempty (merged_text c)); simpl;
    apply non_string_blocks_items; exact H.
Qed.

Lemma render_multiple_to_string_merge (tokens : list token) :
  render_multiple_to_string render tokens =
  (x <- render_multiple render tokens ;;
   ret (merged_text x, non_string_blocks x)).
Proof.
  destruct (render_multiple render tokens) as [[x|e] l] eqn:E.
  - pose proof (render_multiple_items (render_all_items tokens) E) as Hi.
    rewrite (render_multiple_to_string_items _ _ E Hi).
    unfold bind, ret. rewrite app_nil_r. reflexivity.
  - unfold render_multiple_to_string. rewrite E. reflexivity.
Qed.

Lemma render_paragraph_items (children : list token) :
  render_multiple render [Ast.Paragraph children] =
  (c <- render_multiple render children ;; ret (paragraph_items c)).
Proof.
  rewrite render_multiple_one.
  change (render (Ast.Paragraph children))
    with (render_multiple_to_string_and_combine render children
            (fun s => ret (text_block s))).
  destruct (render_multiple render children) as [[c|e] l] eqn:E.
  - pose proof (render_multiple_items (render_all_items children) E) as Hi.
    rewrite (@combine_items _ _ _ _ _ E Hi).
    pose proof (paragraph_items_are_items _ Hi) as Hp.
    rewrite (bind_step (fun c => ret (paragraph_items c)) (eq_refl (Ok c, l))).
    cbn [ret fst snd]. rewrite app_nil_r.
    unfold paragraph_items in *.
    destruct (nonempty (merged_text c)); rewrite ?bind_ret_l; cbn [ret fst];
      match goal with
      | |- bind (Ok (VList ?x), l) _ = _ =>
          rewrite (bind_step (fun v => ret (flatten_value v))
                     (eq_refl (Ok (VList x), l)));
          cbn [ret fst snd];
          change (flatten_value (VList x)) with (flatten x);
          rewrite (items_flatten _ Hp), app_nil_r; reflexivity
      end.
  - unfold render_multiple_to_string_and_combine, render_multiple_to_string.
    rewrite E. reflexivity.
Qed.

(** X4. A paragraph under a parent that merges its children into one
    string is unwrapped: the parent gets the same string and the same
    leftover blocks as with the children of the paragraph in its place. So
    a quote of one paragraph renders as a quote of the paragraph's
    children. *)
Theorem paragraph_is_unwrapped (before children after : list token) :
  render_multiple_to_string render (before ++ Ast.Paragraph children :: after) =
  render_multiple_to_string render (before ++ children ++ after) /\
  render (Ast.Quote [Ast.Paragraph children]) = render (Ast.Quote children).
Proof.
  assert (H : forall b a,
    render_multiple_to_string render (b ++ Ast.Paragraph children :: a) =
    render_multiple_to_string render (b ++ children ++ a)).
  { intros b a.
    change (b ++ Ast.Paragraph children :: a)
      with (b ++ [Ast.Paragraph children] ++ a).
    rewrite !render_multiple_to_string_merge, !render_multiple_three, !bind_assoc.
    apply bind_ext. intros x. rewrite render_paragraph_items, !bind_assoc.
    apply bind_ext. intros c. rewrite bind_ret_l, !bind_assoc.
    apply bind_ext. intros z. rewrite !bind_ret_l.
    rewrite !merged_text_app, !non_string_blocks_concat.
    rewrite paragraph_items_text, paragraph_items_blocks. reflexivity. }
  split; [apply H|].
  change (render (Ast.Quote [Ast.Paragraph children]))
    with (render_multiple_to_string_and_combine render [Ast.Paragraph children]
            (fun s => ret (heading_block QuoteBlock s))).
  change (render (Ast.Quote children))
    with (render_multiple_to_string_and_combine render children
            (fun s => ret (heading_block QuoteBlock s))).
  unfold render_multiple_to_string_and_combine.
  specialize (H [] []). simpl in H. rewrite app_nil_r in H. rewrite H. reflexivity.
Qed.

(** ** Images *)

(** X5. An image with a title takes the title as its caption and does not
    render its children, so nothing under it can raise or log. An image
    without title takes the merged text of its children; the blocks among
    them that are not strings are left out, and no record is logged. *)
Theorem image_caption (source ttl : string) (children others : list token)
    (rendered : list value) (log : list string) :
  ttl <> EmptyString ->
  render_multiple render children = (Ok rendered, log) ->
  render (Ast.Image source ttl others) = (Ok (image_block source ttl), []) /\
  render (Ast.Image source "" children) =
    (Ok (image_block source (merged_text rendered)), log).
Proof.
  intros Ht E. split.
  - destruct ttl as [|c ttl]; [congruence|]. reflexivity.
  - pose proof (render_multiple_items (render_all_items children) E) as Hi.
    change (render (Ast.Image source "" children))
      with (render_image render source "" children).
    unfold render_image. cbn [nonempty].
    rewrite (bind_step _ (render_multiple_to_string_items _ _ E Hi)).
    unfold bind, ret. simpl. rewrite !app_nil_r. reflexivity.
Qed.

(** A titled image over a token of an unregistered class, and an untitled
    image whose alternative text holds a further image. *)
Lemma image_caption_witness :
  render (Ast.Image "a.png" "A" [Token "AutoLink" no_attrs None []])
    = (Ok (image_block "a.png" "A"), []) /\
  render (Ast.Image "a.png" "" [Ast.RawText "alt"; Ast.Image "b.png" "B" []])
    = (Ok (image_block "a.png" "alt"), []).
Proof.
  exact (@image_caption "a.png" "A"
           [Ast.RawText "alt"; Ast.Image "b.png" "B" []]
           [Token "AutoLink" no_attrs None []]
           [VStr "alt"; image_block "b.png" "B"] []
           ltac:(discriminate) eq_refl).
Defined.

(** ** Table rows *)

(** X6. A table row renders to one string for each of its cells, in
    order, also for an empty cell: rows are never padded or merged. *)
Theorem table_row_cells (cells : list token) (vs : list value) (log : list string) :
  Forall (fun c => class_of c = "TableCell"%string) cells ->
  mapM render cells = (Ok vs, log) ->
  render (Ast.TableRow cells) = (Ok (VList vs), log) /\
  length vs = length cells /\
  forallb isinstance_str vs = true.
Proof.
  intros Hc E. pose proof (mapM_Ok _ _ E) as HF.
  assert (Hs : forallb isinstance_str vs = true).
  { clear E. induction HF as [|t v ts vs [lg Hr] _ IH]; [reflexivity|].
    inversion Hc as [|? ? Ht Hts]; subst. simpl. rewrite (IH Hts), andb_true_r.
    destruct t as [name a header children]. simpl in Ht. subst name.
    destruct (render_table_cell_string _ _ _ Hr) as [s ->]. reflexivity. }
  split; [|split; [symmetry; eapply Forall2_length; exact HF | exact Hs]].
  change (render (Ast.TableRow cells)) with (render_table_row render cells).
  unfold render_table_row, render_multiple. rewrite (bind_step _ E).
  unfold bind, ret. cbn [fst snd]. rewrite !app_nil_r.
  do 3 f_equal. apply items_flatten.
  rewrite forallb_forall in *. intros v Hv. specialize (Hs v Hv).
  destruct v; try discriminate Hs. reflexivity.
Qed.

(** A row with an empty cell in the middle. *)
Lemma table_row_cells_witness :
  render (Ast.TableRow [Ast.TableCell [Ast.RawText "a"]; Ast.TableCell [];
                        Ast.TableCell [Ast.RawText "c"]])
    = (Ok (VList [VStr "a"; VStr ""; VStr "c"]), []).
Proof.
  exact (proj1 (@table_row_cells
    [Ast.TableCell [Ast.RawText "a"]; Ast.TableCell [];
     Ast.TableCell [Ast.RawText "c"]]
    [VStr "a"; VStr ""; VStr "c"] []
    ltac:(repeat constructor) eq_refl)).
Defined.

(** ** Raw text *)

(** X7. Raw text is not escaped: a paragraph whose text spells out the
    sigils of a span renders as a paragraph with that span. *)
Theorem raw_text_is_not_escaped (k : span) (s : string) :
  s <> EmptyString ->
  render (Ast.Paragraph [Ast.RawText (wrapped k s)]) =
    (Ok (VList [text_block (wrapped k s)]), []) /\
  render (Ast.Paragraph [span_token k [Ast.RawText s]]) =
    render (Ast.Paragraph [Ast.RawText (wrapped k s)]).
Proof.
  intros Hs.
  assert (Hp : forall t, nonempty t = true ->
            render (Ast.Paragraph [Ast.RawText t]) = (Ok (VList [text_block t]), [])).
  { intros t Ht.
    assert (E : render_multiple render [Ast.RawText t] = (Ok [VStr t], []))
      by reflexivity.
    change (render (Ast.Paragraph [Ast.RawText t]))
      with (render_multiple_to_string_and_combine render [Ast.RawText t]
              (fun s => ret (text_block s))).
    rewrite (@combine_items _ _ _ _ _ E eq_refl).
    cbn [merged_text text_of]. rewrite append_empty_r, Ht. reflexivity. }
  assert (Hw : nonempty (wrapped k s) = true) by (destruct k; reflexivity).
  split; [exact (Hp _ Hw)|]. rewrite (Hp _ Hw).
  assert (Es : render_multiple render [Ast.RawText s] = (Ok [VStr s], []))
    by reflexivity.
  assert (Hm : merged_text [VStr s] = s) by (simpl; apply append_empty_r).
  assert (Hn : nonempty (merged_text [VStr s]) = true)
    by (rewrite Hm; apply nonempty_iff; exact Hs).
  pose proof (@render_span k _ _ _ Es Hn) as Ek. rewrite Hm in Ek.
  assert (E : render_multiple render [span_token k [Ast.RawText s]]
              = (Ok [VStr (wrapped k s)], [])).
  { rewrite render_multiple_one, Ek. reflexivity. }
  change (render (Ast.Paragraph [span_token k [Ast.RawText s]]))
    with (render_multiple_to_string_and_combine render [span_token k [Ast.RawText s]]
            (fun s => ret (text_block s))).
  rewrite (@combine_items _ _ _ _ _ E eq_refl).
  cbn [merged_text text_of]. rewrite append_empty_r, Hw. reflexivity.
Qed.

(** Bold text and its spelling. *)
Lemma raw_text_is_not_escaped_witness :
  render (Ast.Paragraph [Ast.Strong [Ast.RawText "b"]]) =
  render (Ast.Paragraph [Ast.RawText "**b**"]).
Proof.
  exact (proj2 (@raw_text_is_not_escaped SStrong "b" ltac:(discriminate))).
Defined.

(** ** The language lookup *)

Lemma first_label_in (lang label : string) (labels : list string) :
  first_label lang labels label -> In label labels.
Proof.
  intros (before & after & -> & _). apply in_or_app. right. left. reflexivity.
Qed.

(** X8. The language lookup never raises, and its label is always one the
    allow-list has, or empty; it logs its one record exactly when the label
    is empty. *)
Theorem language_label_is_listed (lang : string) :
  exists label,
    (In label notionSoLangs /\ match_language lang = (Ok label, [])) \/
    (label = EmptyString /\ lang <> EmptyString /\
     match_language lang = (Ok label, [language_diagnostic lang])).
Proof.
  destruct (resolves_total lang) as (label & diag & H).
  pose proof (match_language_resolves H) as E.
  exists label. destruct H as [|lang label Hl Hf|lang Hl Hn].
  - left. split; [|exact E].
    assert (Hx : existsb (String.eqb "Plain Text") notionSoLangs = true)
      by reflexivity.
    apply existsb_exists in Hx. destruct Hx as (x & Hx & Ex).
    apply String.eqb_eq in Ex. subst x. exact Hx.
  - left. split; [exact (first_label_in Hf) | exact E].
  - right. auto.
Qed.

Lemma same_ignorecase_match (a b s : string) :
  same_ignorecase a b -> re_match_escape_I a s = re_match_escape_I b s.
Proof.
  unfold same_ignorecase. revert b s.
  induction a as [|p a IH]; intros [|q b] s H; try discriminate H; [reflexivity|].
  simpl in H. inversion H as [[Hp Hr]]. simpl. destruct s as [|c s]; [reflexivity|].
  unfold eqb_ignorecase. rewrite Hp, (IH b s Hr). reflexivity.
Qed.

Lemma next_matching_ext (p q : string -> bool) (l : list string) (d : string) :
  (forall s, p s = q s) -> next_matching p l d = next_matching q l d.
Proof.
  intros H. induction l as [|x l IH]; simpl; [reflexivity|].
  rewrite H, IH. reflexivity.
Qed.

Lemma labels_match_themselves :
  forallb (fun label =>
             String.eqb (next_matching (re_match_escape_I label) notionSoLangs "") label)
          notionSoLangs = true.
Proof. vm_compute. reflexivity. Qed.

(** X9. A label of the allow-list, written in any letter case, is looked
    up to the label itself: no shorter or earlier label takes its place,
    and no record is logged. *)
Theorem listed_label_is_found (lang label : string) :
  In label notionSoLangs ->
  same_ignorecase lang label ->
  match_language lang = (Ok label, []).
Proof.
  intros Hin Hs.
  pose proof (label_nonempty Hin) as Hn.
  assert (Hl : nonempty lang = true).
  { destruct lang as [|c lang]; [|reflexivity].
    destruct label; [discriminate Hn | discriminate Hs]. }
  unfold match_language. rewrite Hl.
  rewrite (next_matching_ext _ (re_match_escape_I label) notionSoLangs ""
             (fun s => same_ignorecase_match s Hs)).
  pose proof labels_match_themselves as H. rewrite forallb_forall in H.
  specialize (H label Hin). apply String.eqb_eq in H. rewrite H, Hn. reflexivity.
Qed.

(** The labels JavaScript and C++, in small and in capital letters. *)
Lemma listed_label_is_found_witness :
  match_language "javascript" = (Ok "JavaScript"%string, []) /\
  match_language "c++" = (Ok "C++"%string, []) /\
  match_language "PYTHON" = (Ok "Python"%string, []).
Proof.
  assert (Hin : forall l, existsb (String.eqb l) notionSoLangs = true ->
                          In l notionSoLangs).
  { intros l H. apply existsb_exists in H. destruct H as (x & Hx & E).
    apply String.eqb_eq in E. subst. exact Hx. }
  split; [|split].
  - exact (@listed_label_is_found "javascript" "JavaScript"
             (Hin "JavaScript"%string eq_refl) eq_refl).
  - exact (@listed_label_is_found "c++" "C++" (Hin "C++"%string eq_refl) eq_refl).
  - exact (@listed_label_is_found "PYTHON" "Python" (Hin "Python"%string eq_refl) eq_refl).
Defined.

(** ** What is logged *)

Section Records.
Variable P : string -> Prop.

Lemma bind_records (A B : Type) (m : M A) (f : A -> M B) :
  Forall P (snd m) -> (forall a, Forall P (snd (f a))) -> Forall P (snd (bind m f)).
Proof.
  intros Hm Hf. destruct m as [[a|e] l]; simpl in *; [|exact Hm].
  specialize (Hf a). destruct (f a) as [r l2]. simpl in *.
  apply Forall_app. split; assumption.
Qed.

Lemma mapM_records (A B : Type) (f : A -> M B) (l : list A) :
  (forall x, In x l -> Forall P (snd (f x))) -> Forall P (snd (mapM f l)).
Proof.
  induction l as [|x l IH]; intros H; [constructor|].
  rewrite mapM_cons. apply bind_records; [apply H; left; reflexivity|].
  intros y. apply bind_records; [apply IH; intros z Hz; apply H; right; exact Hz|].
  intros ys. constructor.
Qed.

Lemma comprehension_records (A B : Type) (cond : A -> M bool) (elem : A -> M B)
    (l : list A) :
  (forall x, Forall P (snd (cond x))) ->
  (forall x, Forall P (snd (elem x))) ->
  Forall P (snd (comprehension cond elem l)).
Proof.
  intros Hc He. induction l as [|x l IH]; [constructor|].
  change (comprehension cond elem (x :: l))
    with (b <- cond x ;;
          if b then y <- elem x ;; ys <- comprehension cond elem l ;; ret (y :: ys)
          else comprehension cond elem l).
  apply bind_records; [apply Hc|]. intros [|]; [|exact IH].
  apply bind_records; [apply He|]. intros y.
  apply bind_records; [exact IH|]. intros ys. constructor.
Qed.

Lemma getitem_records (d : list (string * value)) (k : string) :
  Forall P (snd (getitem d k)).
Proof. unfold getitem. destruct (lookup d k); constructor. Qed.

Lemma subscript_records (v : value) (k : string) : Forall P (snd (subscript v k)).
Proof. destruct v; try constructor. apply getitem_records. Qed.

Lemma toString_records (v : value) : Forall P (snd (toString v)).
Proof.
  destruct v; try constructor. unfold toString.
  apply bind_records; [apply getitem_records|].
  intros ty. destruct (is_TextBlock ty); [apply getitem_records | constructor].
Qed.

Lemma join_records (l : list value) : Forall P (snd (join l)).
Proof.
  induction l as [|v l IH]; [constructor|].
  destruct v; try constructor. simpl.
  apply bind_records; [exact IH|]. intros t. constructor.
Qed.

Lemma list_index_records (A : Type) (l : list A) (i : Z) :
  Forall P (snd (list_index l i)).
Proof.
  unfold list_index.
  destruct ((0 <=? (if i <? 0 then i + Z.of_nat (length l) else i))
            && ((if i <? 0 then i + Z.of_nat (length l) else i)
                <? Z.of_nat (length l)))%bool; [|constructor].
  destruct (nth_error l _); constructor.
Qed.

Lemma iterate_records (v : value) : Forall P (snd (iterate v)).
Proof. destruct v; constructor. Qed.

Variable r : token -> M value.

Lemma render_multiple_records (tokens : list token) :
  (forall c, In c tokens -> Forall P (snd (r c))) ->
  Forall P (snd (render_multiple r tokens)).
Proof.
  intros H. unfold render_multiple.
  apply bind_records; [apply mapM_records; exact H|]. intros x. constructor.
Qed.

Lemma render_multiple_to_string_records (tokens : list token) :
  (forall c, In c tokens -> Forall P (snd (r c))) ->
  Forall P (snd (render_multiple_to_string r tokens)).
Proof.
  intros H. unfold render_multiple_to_string.
  apply bind_records; [apply render_multiple_records; exact H|]. intros bs.
  apply bind_records; [apply mapM_records; intros; apply toString_records|].
  intros x. constructor.
Qed.

Lemma combine_records (tokens : list token) (f : string -> M value) :
  (forall c, In c tokens -> Forall P (snd (r c))) ->
  (forall s, Forall P (snd (f s))) ->
  Forall P (snd (render_multiple_to_string_and_combine r tokens f)).
Proof.
  intros H Hf. unfold render_multiple_to_string_and_combine.
  apply bind_records; [apply render_multiple_to_string_records; exact H|].
  intros [strs blocks]. apply bind_records; [|intros x; constructor].
  destruct (nonempty strs); [|constructor].
  apply bind_records; [apply Hf|]. intros b. constructor.
Qed.
End Records.

Lemma call_records (r : token -> M value) (h : handler) (a : attrs)
    (header : option token) (children : list token) :
  (forall c, In c children -> Forall diagnostic (snd (r c))) ->
  (forall c, header = Some c -> Forall diagnostic (snd (r c))) ->
  Forall diagnostic (snd (call r h a header children)).
Proof.
  intros Hc Hh.
  assert (Hret : forall v : value, Forall diagnostic (snd (ret v)))
    by (intros; constructor).
  destruct h; cbn [call];
    unfold render_document, render_block_code, render_thematic_break,
      render_heading, render_quote, render_paragraph, render_list,
      render_list_item, render_table, render_table_row, render_table_cell,
      render_strong, render_emphasis, render_inline_code, render_raw_text,
      render_strikethrough, render_link, render_escape_sequence,
      render_line_break, render_image;
    try (apply combine_records; [exact Hc | intros s; apply Hret]);
    try apply Hret.
  - (* Document *)
    apply bind_records; [apply render_multiple_records; exact Hc|]. intros; apply Hret.
  - (* BlockCode *)
    apply bind_records.
    + unfold match_language. destruct (nonempty (language a)); [|constructor].
      apply bind_records; [|intros; constructor].
      destruct (nonempty _); [constructor|].
      constructor; [|constructor]. right. left. eexists. reflexivity.
    + intros lang. apply combine_records; [exact Hc | intros s; apply Hret].
  - (* Heading *)
    apply bind_records.
    + unfold clamp_level. destruct (3 <? level a) eqn:E; [|constructor].
      apply bind_records; [|intros; constructor].
      constructor; [|constructor]. right. right. exists (level a).
      split; [apply Z.ltb_lt; exact E|]. unfold heading_diagnostic. rewrite E.
      reflexivity.
    + intros lvl. apply combine_records; [exact Hc|]. intros s.
      apply bind_records; [apply list_index_records|]. intros; constructor.
  - (* List *)
    apply bind_records; [apply render_multiple_records; exact Hc|]. intros; apply Hret.
  - (* ListItem *)
    apply bind_records; [apply render_multiple_records; exact Hc|]. intros rendered.
    apply bind_records.
    { apply comprehension_records; intros x; [|constructor].
      apply bind_records; [apply subscript_records|]. intros; constructor. }
    intros ch. apply bind_records.
    { apply comprehension_records; intros x; [|apply subscript_records].
      apply bind_records; [apply subscript_records|]. intros; constructor. }
    intros strings. apply bind_records; [apply join_records|]. intros; constructor.
  - (* Table *)
    apply bind_records.
    { destruct header as [c|]; [apply Hh; reflexivity | constructor]. }
    intros row. apply bind_records; [apply mapM_records; exact Hc|]. intros rows.
    apply bind_records; [apply iterate_records|]. intros; constructor.
  - (* TableRow *)
    apply bind_records; [apply render_multiple_records; exact Hc|]. intros; apply Hret.
  - (* TableCell *)
    apply bind_records; [apply render_multiple_to_string_records; exact Hc|].
    intros [strs blocks]. apply bind_records; [|intros; constructor].
    destruct blocks; [constructor|]. constructor; [|constructor]. left. reflexivity.
  - (* Link *)
    apply bind_records; [apply render_multiple_to_string_records; exact Hc|].
    intros [strs blocks]. constructor.
  - (* Image *)
    apply bind_records; [|intros; constructor].
    destruct (nonempty (title a)); [constructor|].
    apply bind_records; [apply render_multiple_to_string_records; exact Hc|].
    intros; constructor.
Qed.

(** X10. Whatever a render call logs, also one that ends in an error, is
    one of three diagnostics: the one of a table cell with leftover
    blocks, the one of a code language without label, or the one of a
    heading above level 3. *)
Theorem records_are_diagnostics (t : token) : Forall diagnostic (snd (render t)).
Proof.
  induction t as [name a header children Hh IH] using token_induction.
  rewrite render_unfold. destruct (registered render_map name) as [h|]; [|constructor].
  apply call_records.
  - intros c Hin. rewrite Forall_forall in IH. exact (IH c Hin).
  - exact Hh.
Qed.

(** ** Where errors come from *)

Lemma bind_Raise (A B : Type) (m : M A) (f : A -> M B) (e : exn)
    (log : list string) :
  bind m f = (Raise e, log) ->
  m = (Raise e, log) \/
  exists a l1 l2, m = (Ok a, l1) /\ f a = (Raise e, l2) /\ log = l1 ++ l2.
Proof.
  destruct m as [[a|e'] l1]; simpl.
  - destruct (f a) as [r l2] eqn:E. intros H. inversion H; subst.
    right. exists a, l1, l2. auto.
  - intros H. inversion H; subst. left. reflexivity.
Qed.

(** [raise_inv H E]: from [H : bind m f = (Raise e, log)], either [m]
    raises, which leaves [E], or the continuation does, which stays [H]. *)
Ltac raise_inv H E :=
  let a := fresh "a" in
  let l1 := fresh "lg" in
  let l2 := fresh "lg" in
  let El := fresh "El" in
  apply bind_Raise in H; destruct H as [E|(a & l1 & l2 & E & H & El)].

Lemma mapM_Raise (A B : Type) (f : A -> M B) (l : list A) (e : exn)
    (log : list string) :
  mapM f l = (Raise e, log) -> exists x lg, In x l /\ f x = (Raise e, lg).
Proof.
  revert log. induction l as [|x l IH]; intros log H; [discriminate H|].
  rewrite mapM_cons in H. raise_inv H E.
  - exists x, log. split; [left; reflexivity | exact E].
  - raise_inv H E'.
    + destruct (IH _ E') as (y & lg' & Hin & Hy). exists y, lg'. split; [right|]; auto.
    + discriminate H.
Qed.

Lemma comprehension_Raise (A B : Type) (cond : A -> M bool) (elem : A -> M B)
    (l : list A) (e : exn) (log : list string) :
  comprehension cond elem l = (Raise e, log) ->
  exists x lg, In x l /\
    (cond x = (Raise e, lg) \/
     (exists lc, cond x = (Ok true, lc)) /\ elem x = (Raise e, lg)).
Proof.
  revert log. induction l as [|x l IH]; intros log H; [discriminate H|].
  change (comprehension cond elem (x :: l))
    with (b <- cond x ;;
          if b then y <- elem x ;; ys <- comprehension cond elem l ;; ret (y :: ys)
          else comprehension cond elem l) in H.
  raise_inv H E.
  - exists x, log. split; [left; reflexivity | left; exact E].
  - match goal with b : bool |- _ => destruct b end.
    + raise_inv H E'.
      * exists x, lg0. split; [left; reflexivity|]. right. split; [eexists|]; eassumption.
      * raise_inv H E''; [|discriminate H].
        destruct (IH _ E'') as (y & lg' & Hin & Hy). exists y, lg'. split; [right|]; auto.
    + destruct (IH _ H) as (y & lg' & Hin & Hy). exists y, lg'. split; [right|]; auto.
Qed.

Lemma join_Raise (l : list value) (e : exn) (log : list string) :
  join l = (Raise e, log) -> e = TypeError.
Proof.
  revert log. induction l as [|v l IH]; intros log H; [discriminate H|].
  destruct v; simpl in H; try (inversion H; reflexivity).
  raise_inv H E; [eapply IH; exact E | discriminate H].
Qed.

Lemma render_multiple_Raise (r : token -> M value) (tokens : list token)
    (e : exn) (log : list string) :
  render_multiple r tokens = (Raise e, log) ->
  exists c lg, In c tokens /\ r c = (Raise e, lg).
Proof.
  unfold render_multiple. intros H. raise_inv H E; [|discriminate H].
  eapply mapM_Raise. exact E.
Qed.

Lemma render_multiple_to_string_Raise (tokens : list token) (e : exn)
    (log : list string) :
  render_multiple_to_string render tokens = (Raise e, log) ->
  exists c lg, In c tokens /\ render c = (Raise e, lg).
Proof.
  rewrite render_multiple_to_string_merge. intros H.
  raise_inv H E; [|discriminate H]. eapply render_multiple_Raise. exact E.
Qed.

Lemma combine_Raise (tokens : list token) (f : string -> M value) (e : exn)
    (log : list string) :
  render_multiple_to_string_and_combine render tokens f = (Raise e, log) ->
  (exists c lg, In c tokens /\ render c = (Raise e, lg)) \/
  (exists s lg, f s = (Raise e, lg)).
Proof.
  unfold render_multiple_to_string_and_combine. intros H. raise_inv H E.
  - left. eapply render_multiple_to_string_Raise. exact E.
  - destruct a as [strs blocks]. raise_inv H E'; [|discriminate H].
    destruct (nonempty strs); [|discriminate E'].
    raise_inv E' Ef; [|discriminate E']. right. eauto.
Qed.

Lemma item_subscript_type (x : value) (e : exn) (lg : list string) :
  is_item x = true -> subscript x "type" = (Raise e, lg) -> e = TypeError.
Proof.
  intros Hi H. destruct x as [s|c|l|d]; try discriminate Hi.
  - inversion H. reflexivity.
  - destruct (block_type (VDict d) Hi) as (ty & E & _). rewrite E in H. discriminate H.
Qed.

Lemma list_item_rest_Raise (rendered : list value) (ldr : string) (e : exn)
    (log : list string) :
  forallb is_item rendered = true ->
  (children' <- comprehension
                  (fun b => ty <- subscript b "type" ;; ret (negb (is_TextBlock ty)))
                  (fun b => ret b) rendered ;;
   strings <- comprehension
                (fun s => ty <- subscript s "type" ;; ret (is_TextBlock ty))
                (fun s => subscript s "title") rendered ;;
   ttl <- join strings ;;
   ret (VDict [ ("type", VClass (if re_match_digit ldr then NumberedListBlock
                                 else BulletedListBlock));
                ("title", VStr ttl);
                ("children", VList children') ])) = (Raise e, log) ->
  e = TypeError.
Proof.
  intros Hi H. rewrite forallb_forall in Hi.
  raise_inv H E.
  - apply comprehension_Raise in E. destruct E as (x & lg & Hin & [E|[_ E]]).
    + raise_inv E Es; [|discriminate E]. exact (item_subscript_type _ (Hi x Hin) Es).
    + discriminate E.
  - raise_inv H E'.
    + apply comprehension_Raise in E'. destruct E' as (x & lg' & Hin & [E'|[[lc Ec] E']]).
      * raise_inv E' Es; [|discriminate E'].
        exact (item_subscript_type _ (Hi x Hin) Es).
      * specialize (Hi x Hin). destruct x as [s|c|l|d]; try discriminate Hi.
        { inversion E'. reflexivity. }
        destruct (block_type (VDict d) Hi) as (ty & Et & Hty & Htitle).
        rewrite Et, bind_pure in Ec. inversion Ec as [Hb].
        rewrite Hty in Hb. rewrite (Htitle Hb) in E'. discriminate E'.
    + raise_inv H Ej; [|discriminate H]. eapply join_Raise. exact Ej.
Qed.

Lemma list_item_rest_Ok (rendered : list value) (ldr : string) :
  forallb is_item rendered = true ->
  forallb isinstance_dict rendered = true ->
  (children' <- comprehension
                  (fun b => ty <- subscript b "type" ;; ret (negb (is_TextBlock ty)))
                  (fun b => ret b) rendered ;;
   strings <- comprehension
                (fun s => ty <- subscript s "type" ;; ret (is_TextBlock ty))
                (fun s => subscript s "title") rendered ;;
   ttl <- join strings ;;
   ret (VDict [ ("type", VClass (if re_match_digit ldr then NumberedListBlock
                                 else BulletedListBlock));
                ("title", VStr ttl);
                ("children", VList children') ]))
  = (Ok (list_item_block (re_match_digit ldr) (text_titles rendered)
           (non_text_blocks rendered)), []).
Proof.
  intros Hi Hd. pose proof (dict_items_blocks _ Hi Hd) as Hb.
  rewrite (@comprehension_pure _ _ _ _
             (fun b => negb (is_text_block b)) (fun b => b)).
  2:{ eapply Forall_impl; [|exact Hb]. intros b H.
      destruct (block_type b H) as (ty & -> & <- & _).
      rewrite bind_pure. auto. }
  rewrite bind_pure.
  rewrite (@comprehension_pure _ _ _ _
             is_text_block (fun b => VStr (text_of b))).
  2:{ eapply Forall_impl; [|exact Hb]. intros b H.
      destruct (block_type b H) as (ty & -> & Hty & Ht).
      rewrite bind_pure, Hty. split; [reflexivity|]. exact Ht. }
  rewrite bind_pure, join_titles, bind_pure, map_id. reflexivity.
Qed.

Lemma list_index_Raise (A : Type) (l : list A) (i : Z) (e : exn)
    (log : list string) :
  list_index l i = (Raise e, log) ->
  e = IndexError /\ (i < - Z.of_nat (length l) \/ Z.of_nat (length l) <= i).
Proof.
  unfold list_index.
  destruct (i <? 0) eqn:Ei;
    [apply Z.ltb_lt in Ei | apply Z.ltb_ge in Ei];
    match goal with
    | |- (if ?c then _ else _) = _ -> _ => destruct c eqn:Ec
    end;
    try (apply andb_true_iff in Ec; destruct Ec as [E1 E2];
         apply Z.leb_le in E1; apply Z.ltb_lt in E2;
         match goal with
         | |- match nth_error l ?n with _ => _ end = _ -> _ =>
             destruct (nth_error l n) eqn:En; [discriminate|];
             apply nth_error_None in En; lia
         end);
    intros H; inversion H; subst; split; try reflexivity;
    apply andb_false_iff in Ec; destruct Ec as [Ec|Ec];
    [apply Z.leb_gt in Ec | apply Z.ltb_ge in Ec
     | apply Z.leb_gt in Ec | apply Z.ltb_ge in Ec]; lia.
Qed.

Lemma clamp_level_Ok (lvl : Z) :
  exists lvl' log, clamp_level lvl = (Ok lvl', log) /\
                   lvl' = (if 3 <? lvl then 3 else lvl).
Proof.
  unfold clamp_level. destruct (3 <? lvl); eexists _, _; split; reflexivity.
Qed.

Lemma match_language_Ok (lang : string) :
  exists label log, match_language lang = (Ok label, log).
Proof.
  destruct (resolves_total lang) as (label & diag & H).
  exists label, diag. apply match_language_resolves. exact H.
Qed.

Lemma call_Raise (h : handler) (a : attrs) (header : option token)
    (children : list token) (e : exn) (log : list string) :
  call render h a header children = (Raise e, log) ->
  (renders_children h a = true /\
   exists c lg, In c children /\ render c = (Raise e, lg)) \/
  (h = HTable /\ exists hd lg, header = Some hd /\ render hd = (Raise e, lg)) \/
  (e = TypeError /\ h = HListItem /\ forallb block_token children = false) \/
  (e = IndexError /\ h = HHeading /\ level a < -2) \/
  (e = AttributeError "header" /\ h = HTable /\ header = None).
Proof.
  intros H.
  assert (Hm : forall l, render_multiple render children = (Raise e, l) ->
               exists c lg, In c children /\ render c = (Raise e, lg))
    by (intros l; apply render_multiple_Raise).
  assert (Hc : forall f l,
            (forall s lg, f s <> (Raise e, lg)) ->
            render_multiple_to_string_and_combine render children f = (Raise e, l) ->
            exists c lg, In c children /\ render c = (Raise e, lg)).
  { intros f l Hf Hr. destruct (combine_Raise _ _ Hr) as [Hch|(s & lg & Hs)];
      [exact Hch | destruct (Hf _ _ Hs)]. }
  destruct h; cbn [call] in H;
    try (left; split; [reflexivity|]; eapply Hc; [|exact H];
         intros s lg; discriminate);
    try discriminate H.
  - (* Document *)
    unfold render_document in H. raise_inv H E; [|discriminate H].
    left. split; [reflexivity | eauto].
  - (* BlockCode *)
    unfold render_block_code in H.
    destruct (match_language_Ok (language a)) as (label & lg & El).
    rewrite (bind_step _ El) in H.
    destruct (render_multiple_to_string_and_combine _ _ _) as [res lg'] eqn:Ec in H.
    simpl in H. inversion H; subst.
    left. split; [reflexivity|]. eapply Hc; [|exact Ec]. intros s l0; discriminate.
  - (* Heading *)
    unfold render_heading in H.
    destruct (clamp_level_Ok (level a)) as (lvl' & lg & El & Hl).
    rewrite (bind_step _ El) in H.
    destruct (render_multiple_to_string_and_combine _ _ _) as [res lg'] eqn:Ec in H.
    simpl in H. inversion H; subst res.
    destruct (combine_Raise _ _ Ec) as [Hch|(s & l0 & Hs)].
    + left. split; [reflexivity | exact Hch].
    + raise_inv Hs Ei; [|discriminate Hs].
      apply list_index_Raise in Ei. destruct Ei as [-> Hb]. simpl in Hb.
      right. right. right. left. repeat split.
      destruct (3 <? level a) eqn:E3; [lia|]. apply Z.ltb_ge in E3. lia.
  - (* List *)
    unfold render_list in H. raise_inv H E; [|discriminate H].
    left. split; [reflexivity | eauto].
  - (* ListItem *)
    unfold render_list_item in H. raise_inv H E.
    + left. split; [reflexivity | eauto].
    + pose proof (render_multiple_items (render_all_items children) E) as Hi.
      right. right. left. split; [exact (list_item_rest_Raise _ _ Hi H)|].
      split; [reflexivity|].
      destruct (forallb block_token children) eqn:Eb; [|reflexivity].
      pose proof (block_children_dicts _ Eb E) as Hd.
      rewrite (list_item_rest_Ok _ (leader a) Hi Hd) in H. discriminate H.
  - (* Table *)
    unfold render_table in H. raise_inv H E.
    + destruct header as [hd|].
      * right. left. split; [reflexivity|]. eauto.
      * inversion E; subst. right. right. right. right. auto.
    + raise_inv H E'.
      * left. split; [reflexivity|].
        destruct (mapM_Raise _ _ E') as (c & lg' & Hin & Hr). eauto.
      * raise_inv H Ei; [|discriminate H].
        destruct header as [hd|]; [|discriminate E].
        pose proof (@render_items hd _ _ E) as Hit.
        destruct a0; try discriminate Ei. discriminate Hit.
  - (* TableRow *)
    unfold render_table_row in H. raise_inv H E; [|discriminate H].
    left. split; [reflexivity | eauto].
  - (* TableCell *)
    unfold render_table_cell in H. raise_inv H E.
    + left. split; [reflexivity|]. eapply render_multiple_to_string_Raise. exact E.
    + destruct a0 as [strs blocks]. raise_inv H E'; [|discriminate H].
      destruct blocks; discriminate E'.
  - (* Link *)
    unfold render_link in H. raise_inv H E.
    + left. split; [reflexivity|]. eapply render_multiple_to_string_Raise. exact E.
    + destruct a0 as [strs blocks]. discriminate H.
  - (* Image *)
    unfold render_image in H. raise_inv H E; [|discriminate H].
    destruct (nonempty (title a)) eqn:Et; [discriminate E|].
    raise_inv E E'; [|discriminate E].
    left. split; [simpl; rewrite Et; reflexivity|].
    eapply render_multiple_to_string_Raise. exact E'.
Qed.

Lemma render_error_cause (t : token) (e : exn) (log : list string) :
  render t = (Raise e, log) -> exists u, reaches t u /\ cause u e.
Proof.
  revert e log.
  induction t as [name a header children Hh IH] using token_induction.
  intros e log H. rewrite render_unfold in H.
  destruct (registered render_map name) as [h|] eqn:Hreg.
  - destruct (call_Raise _ _ _ _ H)
      as [(Hr & c & lg & Hin & Hc)
         |[(-> & hd & lg & -> & Hc)
          |[(-> & -> & Hb)|[(-> & -> & Hl)|(-> & -> & ->)]]]].
    + rewrite Forall_forall in IH. destruct (IH c Hin _ _ Hc) as (u & Hu & Hcause).
      exists u. split; [|exact Hcause].
      eapply reaches_child; eassumption.
    + destruct (Hh hd eq_refl _ _ Hc) as (u & Hu & Hcause).
      exists u. split; [|exact Hcause]. apply reaches_header; assumption.
    + eexists. split; [apply reaches_self|]. simpl. auto.
    + eexists. split; [apply reaches_self|]. simpl. auto.
    + eexists. split; [apply reaches_self|]. simpl. auto.
  - inversion H; subst. eexists. split; [apply reaches_self|]. simpl. auto.
Qed.

(** X11. Every error of a render call comes from a token that the call
    reached: a [KeyError] names the class of a token that the table does
    not have, a [TypeError] comes from a list item with a child that is no
    block token, an [IndexError] from a heading of a level below -2, an
    [AttributeError] from a table without header row. The lookups in the
    descriptors never fail. *)
Theorem error_has_cause (t : token) (e : exn) (log : list string) :
  render t = (Raise e, log) -> exists u, reaches t u /\ cause u e.
Proof. apply render_error_cause. Qed.

(** A list item over a bare text, inside a document. *)
Lemma error_has_cause_witness :
  exists u,
    reaches (Ast.Document [Ast.List [Ast.ListItem "-" [Ast.RawText "c"]]]) u /\
    cause u TypeError.
Proof.
  exact (@error_has_cause
           (Ast.Document [Ast.List [Ast.ListItem "-" [Ast.RawText "c"]]])
           TypeError [] eq_refl).
Defined.

(** ** Well-formed trees *)

Lemma well_formed_unfold (name : string) (a : attrs) (header : option token)
    (children : list token) :
  well_formed (Token name a header children) =
  match registered render_map name with
  | None => false
  | Some h =>
      forallb well_formed children
      && match h with
         | HHeading => 1 <=? level a
         | HTable => match header with
                     | Some row => well_formed row
                     | None => false
                     end
         | HListItem => forallb block_token children
         | _ => true
         end
  end.
Proof. reflexivity. Qed.

Lemma well_formed_reaches (t u : token) :
  reaches t u -> well_formed t = true -> well_formed u = true.
Proof.
  induction 1 as [t|name a header children h c u Hreg Hh Hin _ IH
                  |name a c children u Hreg _ IH]; intros Hw.
  - exact Hw.
  - apply IH. rewrite well_formed_unfold, Hreg in Hw.
    apply andb_true_iff in Hw. destruct Hw as [Hc _].
    rewrite forallb_forall in Hc. exact (Hc c Hin).
  - apply IH. rewrite well_formed_unfold, Hreg in Hw.
    apply andb_true_iff in Hw. destruct Hw as [_ Hc]. exact Hc.
Qed.

Lemma well_formed_no_cause (u : token) (e : exn) :
  well_formed u = true -> cause u e -> False.
Proof.
  destruct u as [name a header children]. rewrite well_formed_unfold.
  destruct e as [k| | |n]; simpl.
  - intros Hw [_ Hreg]. rewrite Hreg in Hw. discriminate Hw.
  - intros Hw [Hreg Hb]. rewrite Hreg in Hw.
    apply andb_true_iff in Hw. destruct Hw as [_ Hw]. congruence.
  - intros Hw [Hreg Hl]. rewrite Hreg in Hw.
    apply andb_true_iff in Hw. destruct Hw as [_ Hw]. apply Z.leb_le in Hw. lia.
  - intros Hw (_ & Hreg & ->). rewrite Hreg in Hw.
    apply andb_true_iff in Hw. destruct Hw as [_ Hw]. discriminate Hw.
Qed.

Lemma well_formed_Ok (t : token) :
  well_formed t = true -> exists v log, render t = (Ok v, log).
Proof.
  intros Hw. destruct (render t) as [[v|e] log] eqn:E; [eauto|].
  destruct (render_error_cause _ E) as (u & Hu & Hc).
  destruct (well_formed_no_cause _ _ (well_formed_reaches Hu Hw) Hc).
Qed.

(** X12. A render call on a well-formed tree returns: it raises nothing,
    whatever the texts, levels above 3, code languages and nesting of the
    tree; what it returns are strings and block descriptors. *)
Theorem well_formed_tree_renders (t : token) :
  well_formed t = true ->
  exists v log,
    render t = (Ok v, log) /\ forallb is_item (flatten_value v) = true.
Proof.
  intros Hw. destruct (well_formed_Ok _ Hw) as (v & log & E).
  exists v, log. split; [exact E | exact (@render_items t _ _ E)].
Qed.

(** A document with a heading of level 5, a code block, a nested list and
    a table. *)
Lemma well_formed_tree_renders_witness :
  exists v log,
    render (Ast.Document
      [Ast.Heading 5 [Ast.RawText "h"];
       Ast.CodeBlock "zz" [Ast.RawText "x"];
       Ast.List [Ast.ListItem "1." [Ast.Paragraph [Ast.RawText "a"];
                                    Ast.List [Ast.ListItem "-" []]]];
       example_table]) = (Ok v, log) /\
    forallb is_item (flatten_value v) = true.
Proof.
  exact (@well_formed_tree_renders
    (Ast.Document
      [Ast.Heading 5 [Ast.RawText "h"];
       Ast.CodeBlock "zz" [Ast.RawText "x"];
       Ast.List [Ast.ListItem "1." [Ast.Paragraph [Ast.RawText "a"];
                                    Ast.List [Ast.ListItem "-" []]]];
       example_table]) eq_refl).
Defined.

(** X13. Every value that [render] returns, on any tree, is made of
    strings and block descriptors: each dict in it has a class of
    [notion.block] as its type, and a Text block has a string title. *)
Theorem rendered_values_are_items (t : token) (v : value) (log : list string) :
  render t = (Ok v, log) -> forallb is_item (flatten_value v) = true.
Proof. apply render_items. Qed.

(** A paragraph with an image and a link. *)
Lemma rendered_values_are_items_witness :
  forallb is_item
    [text_block "[t](u)"; image_block "i.png" "alt"] = true.
Proof.
  exact (@rendered_values_are_items
    (Ast.Paragraph [Ast.Image "i.png" "alt" []; Ast.Link "u" [Ast.RawText "t"]])
    (VList [text_block "[t](u)"; image_block "i.png" "alt"]) [] eq_refl).
Defined.

(** X14. A well-formed document whose children are block tokens renders
    to a list of block descriptors alone: no bare string reaches the top
    level. *)
Theorem document_of_blocks (children : list token) :
  well_formed (Ast.Document children) = true ->
  forallb block_token children = true ->
  exists blocks log,
    render (Ast.Document children) = (Ok (VList blocks), log) /\
    forallb is_block blocks = true.
Proof.
  intros Hw Hb. destruct (well_formed_Ok _ Hw) as (v & log & E).
  pose proof E as E'.
  change (render_document render children = (Ok v, log)) in E'.
  unfold render_document in E'. bind_inv E' Er. ret_inv E'.
  pose proof (render_multiple_items (render_all_items children) Er) as Hi.
  pose proof (block_children_dicts _ Hb Er) as Hd.
  pose proof (dict_items_blocks _ Hi Hd) as HB.
  eexists _, _. split; [exact E|].
  apply forallb_forall. rewrite Forall_forall in HB. exact HB.
Qed.

(** A document with a paragraph that holds an image. *)
Lemma document_of_blocks_witness :
  exists blocks log,
    render (Ast.Document [Ast.Paragraph [Ast.RawText "t"; Ast.Image "i.png" "" []];
                          Ast.ThematicBreak])
      = (Ok (VList blocks), log) /\
    forallb is_block blocks = true.
Proof.
  exact (@document_of_blocks
    [Ast.Paragraph [Ast.RawText "t"; Ast.Image "i.png" "" []]; Ast.ThematicBreak]
    eq_refl eq_refl).
Defined.
